(** * Block explorer: catch-up loop, ledger and instance lock

    A shallow embedding of [block_processor.py] (class [BlockExplorer]).

    The Python object and the two files it owns are one record that every
    method takes and returns.  What the program cannot decide itself is an
    oracle of the environment: what the Tendermint node answers, whether a
    write to [blocks.csv] goes through, and when a shutdown signal arrives.
    The structured log the program emits is kept as a list of events; it is
    the trace the properties speak about (which heights were requested,
    which blocks were processed).

    Text is a string of code points below 256, one [ascii] each, as Python's
    text layer hands it to the program; text with other code points is
    outside the model, and so is the interpreter's limit on the number of
    digits of an integer literal, which depends on its version and its
    configuration. *)

From Stdlib Require Import ZArith List Bool Lia.
From Stdlib Require Import Strings.Ascii Strings.String.
From Stdlib Require Import Numbers.DecimalString Numbers.DecimalPos Numbers.DecimalZ.
Import ListNotations.

Open Scope string_scope.
Open Scope Z_scope.

(** ** Python's text primitives, as the program uses them *)

Module Py.

(** Characters [str.strip()] removes, among the code points below 256: TAB,
    LF, VT, FF, CR, FS, GS, RS, US, the space, NEL (U+0085) and the
    no-break space (U+00A0). *)
Definition isspace (c : ascii) : bool :=
  let n := nat_of_ascii c in
  ((9 <=? n)%nat && (n <=? 13)%nat) || ((28 <=? n)%nat && (n <=? 32)%nat) ||
  (n =? 133)%nat || (n =? 160)%nat.

(** White space of the C locale, which is what [int()] skips around the
    digits: TAB, LF, VT, FF, CR and the space. *)
Definition isspace_c (c : ascii) : bool :=
  let n := nat_of_ascii c in
  ((9 <=? n)%nat && (n <=? 13)%nat) || (n =? 32)%nat.

Definition is_empty (s : string) : bool :=
  match s with EmptyString => true | String _ _ => false end.

Fixpoint lstrip (s : string) : string :=
  match s with
  | EmptyString => EmptyString
  | String c r => if isspace c then lstrip r else s
  end.

Fixpoint rstrip (s : string) : string :=
  match s with
  | EmptyString => EmptyString
  | String c r =>
      let r' := rstrip r in
      if isspace c && is_empty r' then EmptyString else String c r'
  end.

(** [s.strip()] *)
Definition strip (s : string) : string := lstrip (rstrip s).

Definition LF : ascii := ascii_of_nat 10.
Definition CR : ascii := ascii_of_nat 13.

(** Reading in text mode: ["\r\n"] and a lone ["\r"] arrive as ["\n"].
    [after_cr] tells that the character before was a carriage return, whose
    line feed has been put out already. *)
Fixpoint newlines (after_cr : bool) (s : string) : string :=
  match s with
  | EmptyString => EmptyString
  | String c r =>
      if Ascii.eqb c CR then String LF (newlines true r)
      else if Ascii.eqb c LF then
        (if after_cr then newlines false r else String LF (newlines false r))
      else String c (newlines false r)
  end.

Definition universal_newlines (s : string) : string := newlines false s.

(** Splitting text into lines, each keeping its line end; the last one has
    none when the text does not end in a line feed. *)
Fixpoint cut_lines (s : string) : list string :=
  match s with
  | EmptyString => []
  | String c r =>
      if Ascii.eqb c LF then String c EmptyString :: cut_lines r
      else match cut_lines r with
           | [] => [String c EmptyString]
           | l :: ls => String c l :: ls
           end
  end.

(** [f.readlines()] on a file opened with ['r']. *)
Definition readlines (content : string) : list string :=
  cut_lines (universal_newlines content).

(** [f.read()] on a file opened with ['r']. *)
Definition read (content : string) : string := universal_newlines content.

(** [s.split(',')[0]]: what stands before the first comma. *)
Fixpoint split_comma_0 (s : string) : string :=
  match s with
  | EmptyString => EmptyString
  | String c r => if Ascii.eqb c "," then EmptyString else String c (split_comma_0 r)
  end.

Definition digit (c : ascii) : option Z :=
  let n := nat_of_ascii c in
  if ((48 <=? n)%nat && (n <=? 57)%nat) then Some (Z.of_nat (n - 48)) else None.

(** Digits of a decimal literal; an underscore may stand between two
    digits.  [seen] tells whether the previous character was a digit. *)
Fixpoint digits (s : string) (acc : Z) (seen : bool) : option Z :=
  match s with
  | EmptyString => if seen then Some acc else None
  | String c r =>
      match digit c with
      | Some d => digits r (10 * acc + d) true
      | None =>
          if Ascii.eqb c "_" then (if seen then digits r acc false else None)
          else None
      end
  end.

Fixpoint lstrip_c (s : string) : string :=
  match s with
  | EmptyString => EmptyString
  | String c r => if isspace_c c then lstrip_c r else s
  end.

Fixpoint rstrip_c (s : string) : string :=
  match s with
  | EmptyString => EmptyString
  | String c r =>
      let r' := rstrip_c r in
      if isspace_c c && is_empty r' then EmptyString else String c r'
  end.

Fixpoint is_ascii (s : string) : bool :=
  match s with
  | EmptyString => true
  | String c r => (nat_of_ascii c <? 128)%nat && is_ascii r
  end.

(** What [int()] makes of one character of a text that is not all ASCII:
    white space becomes a space, and any other character from 127 on, none
    of which is a decimal digit below 256, becomes a question mark. *)
Definition to_ascii (c : ascii) : ascii :=
  if (nat_of_ascii c <? 127)%nat then c
  else if isspace c then " "%char else "?"%char.

Fixpoint map_chars (f : ascii -> ascii) (s : string) : string :=
  match s with
  | EmptyString => EmptyString
  | String c r => String (f c) (map_chars f r)
  end.

(** The text [int()] parses: an ASCII text as it is, any other with its
    characters made ASCII. *)
Definition ascii_form (s : string) : string :=
  if is_ascii s then s else map_chars to_ascii s.

(** [int(s)]; [None] is the [ValueError]. *)
Definition int (s : string) : option Z :=
  match lstrip_c (rstrip_c (ascii_form s)) with
  | String "-" r => option_map Z.opp (digits r 0 false)
  | String "+" r => digits r 0 false
  | t => digits t 0 false
  end.

(** [str(n)], the text an f-string puts for an integer. *)
Definition str (n : Z) : string := NilEmpty.string_of_int (Z.to_int n).

(** [range(lo, hi)] *)
Definition range (lo hi : Z) : list Z :=
  map (fun i => lo + Z.of_nat i) (seq 0 (Z.to_nat (hi - lo))).

(** [lines[-1]] of a list the caller knows to be non-empty. *)
Definition last_line (lines : list string) : string := last lines EmptyString.

End Py.

(** ** The explorer and its environment *)

Definition NL : string := String Py.LF EmptyString.

(** A termination or an interrupt; both are bound to [handle_shutdown]. *)
Inductive signal := SIGTERM | SIGINT.

(** The log records the program emits, with the fields the properties
    read (the text of a caught exception is left out). *)
Inductive Event :=
| Startup
| Init_exiting                              (* "Exiting due to existing processor" *)
| Init_other_running                        (* "Another processor is running, exiting" *)
| Init_created                              (* "Created new blocks.csv file" *)
| Init_found (last_height : Z)              (* "Found existing blocks.csv" *)
| Error_reading                             (* "Error reading blocks.csv" *)
| Shutdown_initiated (signum : signal) (last_height : Z)
| Request (height : option Z)               (* "Making request to tendermint" *)
| Error_fetching (height : option Z)        (* "Error fetching block" *)
| Error_appending (height : Z)              (* "Error appending block" *)
| Block_processed (height : Z) (hash : string)
| Shutdown_processing (last_height : Z)
| Shutdown_complete (final_height : Z).

(** The storage directory: [processor.state] and [blocks.csv], each absent
    or holding text. *)
Record Storage := {
  state_file : option string;
  blocks_file : option string
}.

(** The [BlockExplorer] object together with the storage it works on and
    the log it has written. *)
Record Explorer := {
  last_processed_height : Z;
  running : bool;
  disk : Storage;
  log : list Event
}.

(** What the body of the [try] in [get_block] comes to: an exception of any
    kind (connection, status, JSON, a missing key, a height that is no
    integer), or the height and the hash of the answer; the hash is [None]
    for a JSON null. *)
Inductive reply :=
| Raised
| Block (height : Z) (hash : option string).

(** The environment during one pass of the main loop.  The oracles are asked
    with the loop variable [height] of [process_missing_blocks], which takes
    each value at most once in a pass. *)
Record Tick := {
  (* the answer to GET /block (for [None]) and GET /block?height=h *)
  node : option Z -> reply;
  (* whether opening and writing blocks.csv goes through in the iteration for h *)
  writable : Z -> bool;
  (* a signal handled before the iteration for h tests the flag, that is at
     any moment since the previous test *)
  signal_before : Z -> option signal;
  (* a signal handled later in the pass: after the loop, or during the sleep *)
  signal_after : option signal
}.

Definition emit (ev : Event) (e : Explorer) : Explorer :=
  {| last_processed_height := last_processed_height e;
     running := running e;
     disk := disk e;
     log := log e ++ [ev] |}.

Definition set_height (h : Z) (e : Explorer) : Explorer :=
  {| last_processed_height := h;
     running := running e;
     disk := disk e;
     log := log e |}.

Definition set_running (b : bool) (e : Explorer) : Explorer :=
  {| last_processed_height := last_processed_height e;
     running := b;
     disk := disk e;
     log := log e |}.

Definition set_state_file (f : option string) (e : Explorer) : Explorer :=
  {| last_processed_height := last_processed_height e;
     running := running e;
     disk := {| state_file := f; blocks_file := blocks_file (disk e) |};
     log := log e |}.

Definition set_blocks_file (f : option string) (e : Explorer) : Explorer :=
  {| last_processed_height := last_processed_height e;
     running := running e;
     disk := {| state_file := state_file (disk e); blocks_file := f |};
     log := log e |}.

(** The token [_check_and_acquire_lock] compares: [f.read().strip()]. *)
Definition marker_token (content : string) : string := Py.strip (Py.read content).

Definition _check_and_acquire_lock (e : Explorer) : bool * Explorer :=
  let held :=
    match state_file (disk e) with
    | Some content => String.eqb (marker_token content) "processing"
    | None => false
    end in
  if held then (false, emit Init_other_running e)
  else (true, set_state_file (Some ("processing" ++ NL)) e).

(** Lines 90 to 94: the height of the last line, when there is a line
    after the header.  [None] when there is none; [Some None] when [int]
    raises. *)
Definition read_last_height (content : string) : option (option Z) :=
  let lines := Py.readlines content in
  if (1 <? List.length lines)%nat then
    let last_line := Py.strip (Py.last_line lines) in
    Some (Py.int (Py.split_comma_0 last_line))
  else None.

(** [readable] tells whether opening and reading an existing [blocks.csv]
    goes through. *)
Definition _init_blocks_file (readable : bool) (e : Explorer) : Explorer :=
  match blocks_file (disk e) with
  | None => emit Init_created (set_blocks_file (Some ("height,hash" ++ NL)) e)
  | Some content =>
      if readable then
        match read_last_height content with
        | Some (Some h) => emit (Init_found h) (set_height h e)
        | Some None => emit Error_reading e
        | None => e
        end
      else emit Error_reading e
  end.

(** How the constructor ends: [sys.exit(code)], or an object to [run]. *)
Inductive Outcome :=
| SysExit (code : Z) (e : Explorer)
| Constructed (e : Explorer).

Definition __init__ (readable : bool) (d : Storage) : Outcome :=
  let e := {| last_processed_height := 1; running := true; disk := d; log := [] |} in
  let '(acquired, e) := _check_and_acquire_lock e in
  if negb acquired then SysExit 0 (emit Init_exiting e)
  else Constructed (_init_blocks_file readable e).

(** The handler of SIGTERM and SIGINT.  [state_file.unlink()] is taken to
    succeed on a marker that exists; a handler in which it raises, which
    would leave the marker and the flag as they are, is outside the
    model. *)
Definition handle_shutdown (signum : signal) (e : Explorer) : Explorer :=
  let e := emit (Shutdown_initiated signum (last_processed_height e)) e in
  let e := match state_file (disk e) with
           | Some _ => set_state_file None e
           | None => e
           end in
  set_running false e.

Definition deliver (s : option signal) (e : Explorer) : Explorer :=
  match s with
  | Some signum => handle_shutdown signum e
  | None => e
  end.

Definition get_block (answer : reply) (height : option Z) (e : Explorer)
  : (option Z * option string) * Explorer :=
  let e := emit (Request height) e in
  match answer with
  | Block block_height block_hash => ((Some block_height, block_hash), e)
  | Raised => ((None, None), emit (Error_fetching height) e)
  end.

(** [f"{height},{block_hash}\n"] *)
Definition record_line (height : Z) (block_hash : string) : string :=
  Py.str height ++ "," ++ block_hash ++ NL.

(** Opening with ['a'] creates a missing file.  A write that does not go
    through leaves the file as it was. *)
Definition append_text (line : string) (f : option string) : option string :=
  match f with
  | Some content => Some (content ++ line)
  | None => Some line
  end.

Definition append_block (write_ok : bool) (height : Z) (block_hash : string)
  (e : Explorer) : bool * Explorer :=
  if write_ok then
    let e := set_blocks_file (append_text (record_line height block_hash)
                                (blocks_file (disk e))) e in
    (true, set_height height e)
  else (false, emit (Error_appending height) e).

(** How an iteration of the [for] loop ends: the next one starts, or the
    loop is left by [break] or [return]. *)
Inductive flow := Next | Leave.

Definition iteration (tk : Tick) (height : Z) (e : Explorer) : flow * Explorer :=
  let e := deliver (signal_before tk height) e in
  if negb (running e) then
    (Leave, emit (Shutdown_processing (last_processed_height e)) e)
  else
    let '((block_height, block_hash), e) :=
      get_block (node tk (Some height)) (Some height) e in
    match block_height, block_hash with
    | Some block_height, Some block_hash =>
        let '(appended, e) :=
          append_block (writable tk height) block_height block_hash e in
        if appended then (Next, emit (Block_processed block_height block_hash) e)
        else (Leave, e)
    | _, _ => (Leave, e)
    end.

Fixpoint for_heights (tk : Tick) (heights : list Z) (e : Explorer) : flow * Explorer :=
  match heights with
  | [] => (Next, e)
  | height :: rest =>
      match iteration tk height e with
      | (Next, e) => for_heights tk rest e
      | (Leave, e) => (Leave, e)
      end
  end.

Definition process_missing_blocks (tk : Tick) (current_height : Z) (e : Explorer)
  : Explorer :=
  if last_processed_height e <? current_height then
    snd (for_heights tk
           (Py.range (last_processed_height e + 1) (current_height + 1)) e)
  else e.

(** The body of the [while] of [run]: one pass. *)
Definition poll (tk : Tick) (e : Explorer) : Explorer :=
  let '((current_height, _), e) := get_block (node tk None) None e in
  let e := match current_height with
           | Some current_height => process_missing_blocks tk current_height e
           | None => e
           end in
  deliver (signal_after tk) e.

(** The [while self.running] loop over the passes the environment lets
    happen. *)
Fixpoint poll_loop (tks : list Tick) (e : Explorer) : Explorer :=
  match tks with
  | [] => e
  | tk :: rest => if running e then poll_loop rest (poll tk e) else e
  end.

Definition run (tks : list Tick) (e : Explorer) : Explorer :=
  let e := poll_loop tks (emit Startup e) in
  if running e then e else emit (Shutdown_complete (last_processed_height e)) e.

(** ** What the properties speak about *)

(** The events a method has added to the log. *)
Definition new_events (before after : Explorer) : list Event :=
  skipn (List.length (log before)) (log after).

(** The heights asked from the node with [?height=], in order. *)
Fixpoint requested (evs : list Event) : list Z :=
  match evs with
  | [] => []
  | Request (Some h) :: rest => h :: requested rest
  | _ :: rest => requested rest
  end.

(** The blocks reported as processed, in order. *)
Fixpoint processed (evs : list Event) : list (Z * string) :=
  match evs with
  | [] => []
  | Block_processed h hash :: rest => (h, hash) :: processed rest
  | _ :: rest => processed rest
  end.

Definition header : string := "height,hash" ++ NL.

(** The text of a run of records. *)
Fixpoint record_lines (blocks : list (Z * string)) : string :=
  match blocks with
  | [] => EmptyString
  | (h, hash) :: rest => record_line h hash ++ record_lines rest
  end.

(** The file after one append per block. *)
Definition append_all (blocks : list (Z * string)) (f : option string) : option string :=
  fold_left (fun f b => append_text (record_line (fst b) (snd b)) f) blocks f.

(** The ledger as a start of the program reads it: the height on the last
    line, when there is one after the header and it parses. *)
Definition tail_height (f : option string) : option Z :=
  match f with
  | Some content =>
      match read_last_height content with
      | Some (Some h) => Some h
      | _ => None
      end
  | None => None
  end.

(** The height on every line after the header, read the way
    [_init_blocks_file] reads the last one. *)
Definition ledger_heights (content : string) : list (option Z) :=
  map (fun line => Py.int (Py.split_comma_0 (Py.strip line)))
      (tl (Py.readlines content)).

(** Every record is one above the record before it. *)
Fixpoint gapless (heights : list (option Z)) : bool :=
  match heights with
  | [] => true
  | a :: rest =>
      match a, rest with
      | Some x, Some y :: _ => (y =? x + 1) && gapless rest
      | Some _, [] => true
      | _, _ => false
      end
  end.

Fixpoint nondecreasing (l : list Z) : bool :=
  match l with
  | [] => true
  | a :: rest =>
      match rest with
      | b :: _ => (a <=? b) && nondecreasing rest
      | [] => true
      end
  end.

Fixpoint all_chars (p : ascii -> bool) (s : string) : bool :=
  match s with
  | EmptyString => true
  | String c r => p c && all_chars p r
  end.

(** No line break inside. *)
Definition one_line (s : string) : bool :=
  all_chars (fun c => negb (Ascii.eqb c Py.LF) && negb (Ascii.eqb c Py.CR)) s.

(** The answer to a request for height [h] carries height [h], when it
    carries a block that the loop appends. *)
Definition same_height (h : Z) (r : reply) : bool :=
  match r with
  | Block block_height (Some _) => block_height =? h
  | _ => true
  end.

Definition clean_hash (r : reply) : bool :=
  match r with
  | Block _ (Some hash) => one_line hash
  | _ => true
  end.

(** The node answers a request for a height with the block of that
    height. *)
Definition faithful (tk : Tick) : Prop :=
  forall h, same_height h (node tk (Some h)) = true.

(** ... and with a hash that is one line of text. *)
Definition well_formed (tk : Tick) : Prop :=
  forall h, same_height h (node tk (Some h)) = true /\
            clean_hash (node tk (Some h)) = true.

(** The states of the storage directory the program brings about, starting
    where no ledger exists, with one process at a time: a process is
    started, reads the ledger and runs for some passes of its loop (it ends
    by a signal, or is killed); an operator may remove a marker that was
    left behind.  [ok] is what is asked of each pass. *)
Inductive produced (ok : Tick -> Prop) : Storage -> Prop :=
| produced_fresh : forall marker,
    produced ok {| state_file := marker; blocks_file := None |}
| produced_process : forall d e tks,
    produced ok d ->
    __init__ true d = Constructed e ->
    Forall ok tks ->
    produced ok (disk (run tks e))
| produced_unlock : forall d,
    produced ok d ->
    produced ok {| state_file := None; blocks_file := blocks_file d |}.

(** ** Notions used in the statements and the proofs *)

Definition is_digit (c : ascii) : bool :=
  match Py.digit c with Some _ => true | None => false end.

(** What [str] writes: digits after an optional minus sign. *)
Definition plain (c : ascii) : bool := is_digit c || Ascii.eqb c "-".

Definition no_cr (s : string) : bool :=
  all_chars (fun c => negb (Ascii.eqb c Py.CR)) s.

Definition no_lf (s : string) : bool :=
  all_chars (fun c => negb (Ascii.eqb c Py.LF)) s.

(** The text is empty or ends in a line feed: what is appended starts a
    line. *)
Fixpoint ends_lf (s : string) : bool :=
  match s with
  | EmptyString => true
  | String c r => if Py.is_empty r then Ascii.eqb c Py.LF else ends_lf r
  end.

Definition record_body (h : Z) (hash : string) : string :=
  Py.str h ++ "," ++ hash.

Definition clean (blocks : list (Z * string)) : bool :=
  forallb (fun b => one_line (snd b)) blocks.

(** The cursor and the ledger are as before. *)
Definition untouched (e e' : Explorer) : Prop :=
  last_processed_height e' = last_processed_height e /\
  blocks_file (disk e') = blocks_file (disk e).

(** What an iteration for [h] comes to. *)
Inductive effect (tk : Tick) (h : Z) (e : Explorer)
  : flow -> Explorer -> list Event -> Prop :=
| stopped : forall e' evs,
    running e = false \/ signal_before tk h <> None ->
    requested evs = [] -> processed evs = [] ->
    untouched e e' -> running e' = false ->
    effect tk h e Leave e' evs
| failed : forall e' evs,
    running e = true -> signal_before tk h = None ->
    (forall bh hash, node tk (Some h) = Block bh (Some hash) ->
                     writable tk h = false) ->
    requested evs = [h] -> processed evs = [] ->
    untouched e e' -> running e' = true ->
    effect tk h e Leave e' evs
| appended : forall e' bh hash,
    running e = true -> signal_before tk h = None ->
    node tk (Some h) = Block bh (Some hash) -> writable tk h = true ->
    last_processed_height e' = bh ->
    blocks_file (disk e')
      = append_text (record_line bh hash) (blocks_file (disk e)) ->
    running e' = true ->
    effect tk h e Next e' [Request (Some h); Block_processed bh hash].

(** The events of heights that are fetched and appended one after the
    other. *)
Definition success_events (hash : Z -> string) (hs : list Z) : list Event :=
  flat_map (fun h => [Request (Some h); Block_processed h (hash h)]) hs.

Definition blocks_of (hash : Z -> string) (hs : list Z) : list (Z * string) :=
  map (fun h => (h, hash h)) hs.

Definition fails_at (tk : Tick) (h : Z) : bool :=
  match node tk (Some h) with
  | Block _ (Some _) => negb (writable tk h)
  | _ => true
  end.

(** The object as the first lines of [__init__] set it up. *)
Definition born (d : Storage) : Explorer :=
  {| last_processed_height := 1; running := true; disk := d; log := [] |}.

(** The marker does not say that a processor is at work. *)
Definition lock_free (d : Storage) : Prop :=
  forall content, state_file d = Some content ->
                  marker_token content <> "processing"%string.

(** The cursor a start of the program takes from a ledger it can read: the
    height on the last line, and the value the constructor begins with when
    there is no ledger, no line after the first, or no height on the last
    line. *)
Definition start_cursor (f : option string) : Z :=
  last_processed_height
    (_init_blocks_file true (born {| state_file := None; blocks_file := f |})).

(** From [e] to [e'] the log has grown by [evs], the ledger by the records
    of the blocks processed, and the cursor is the height of the last of
    them. *)
Definition extends (e e' : Explorer) (evs : list Event) : Prop :=
  log e' = (log e ++ evs)%list /\
  blocks_file (disk e') = append_all (processed evs) (blocks_file (disk e)) /\
  last_processed_height e'
    = last (map fst (processed evs)) (last_processed_height e).

(** The blocks processed are those of the heights after the old cursor up
    to the new one. *)
Definition in_order (e e' : Explorer) (evs : list Event) : Prop :=
  map fst (processed evs)
    = Py.range (last_processed_height e + 1) (last_processed_height e' + 1) /\
  last_processed_height e <= last_processed_height e'.

(** A pass in which nothing goes wrong and no signal comes. *)
Definition quiet (answers : option Z -> reply) : Tick :=
  {| node := answers;
     writable := fun _ => true;
     signal_before := fun _ => None;
     signal_after := None |}.

(** A node whose chain stands at [head] and that answers every request
    with the block asked for. *)
Definition chain (head : Z) (hash : Z -> string) (q : option Z) : reply :=
  match q with
  | None => Block head (Some (hash head))
  | Some h => Block h (Some (hash h))
  end.

Definition empty_storage : Storage :=
  {| state_file := None; blocks_file := None |}.

(** The ledger of a storage the program has brought about from nothing
    with a well-formed node: the header and the records of the heights 2
    to [c], and [c] is the cursor a start derives from it. *)
Definition regular (content : string) (c : Z) : Prop :=
  exists blocks,
    content = (header ++ record_lines blocks)%string /\
    clean blocks = true /\
    map fst blocks = Py.range 2 (c + 1) /\
    1 <= c.

(** The object a start makes of a regular ledger, and of none. *)
Definition in_step (e : Explorer) : Prop :=
  exists content,
    blocks_file (disk e) = Some content /\
    regular content (last_processed_height e).

(** A hash to tell the blocks apart. *)
Definition tag (h : Z) : string := ("H" ++ Py.str h)%string.

(** A process that has read a ledger ending in the record of height 7. *)
Definition resumed : Explorer :=
  {| last_processed_height := 7;
     running := true;
     disk := {| state_file := Some ("processing" ++ NL)%string;
                blocks_file := Some (header ++ record_line 7 (tag 7))%string |};
     log := [] |}.

(** The node of [chain], but the request for height [bad] raises. *)
Definition outage (bad head : Z) (q : option Z) : reply :=
  match q with
  | Some h => if h =? bad then Raised else chain head tag q
  | None => chain head tag q
  end.

(** A pass in which a termination signal is handled before the iteration
    for [at_height]. *)
Definition interrupted (at_height head : Z) : Tick :=
  {| node := chain head tag;
     writable := fun _ => true;
     signal_before := fun h => if h =? at_height then Some SIGTERM else None;
     signal_after := None |}.

(** A node that answers the request for height 2 with the block of
    height 5. *)
Definition confused (q : option Z) : reply :=
  match q with
  | None => Block 3 (Some "c"%string)
  | Some h => if h =? 2 then Block 5 (Some "a"%string) else Block 3 (Some "b"%string)
  end.

(** A node that answers the request for height 8 with the block of height
    20 and raises on every other request for a height. *)
Definition misplaced (q : option Z) : reply :=
  match q with
  | None => Block 12 (Some "t"%string)
  | Some h => if h =? 8 then Block 20 (Some "x"%string) else Raised
  end.

(** A node that answers every request for a height with the block of
    height 3. *)
Definition stuck (q : option Z) : reply :=
  match q with
  | None => Block 6 (Some "f"%string)
  | Some _ => Block 3 (Some "c"%string)
  end.

Definition storage_at_5 : Storage :=
  {| state_file := None;
     blocks_file := Some (header ++ record_line 5 "aa")%string |}.

(** ** The log formatter *)

Module JsonFormatter.

(** The values the program puts into the dicts it logs. *)
Inductive pyval :=
| VStr (s : string)
| VInt (n : Z)
| VNone.

(** A dict with [str] keys: the items in the order of insertion, every key
    once. *)
Definition pydict := list (string * pyval).

(** [d[k] = v]: the value of a key that is there is replaced where it
    stands, a new key goes to the end. *)
Fixpoint setitem (k : string) (v : pyval) (d : pydict) : pydict :=
  match d with
  | [] => [(k, v)]
  | (k', v') :: rest =>
      if String.eqb k' k then (k, v) :: rest else (k', v') :: setitem k v rest
  end.

(** [d.get(k)] *)
Fixpoint get (k : string) (d : pydict) : option pyval :=
  match d with
  | [] => None
  | (k', v') :: rest => if String.eqb k' k then Some v' else get k rest
  end.

(** [d.update(other)] *)
Definition update (other d : pydict) : pydict :=
  fold_left (fun d item => setitem (fst item) (snd item) d) other d.

(** [record.msg]: a dict, or anything else. *)
Inductive message :=
| MsgDict (d : pydict)
| MsgOther (v : pyval).

(** The fields of a [logging.LogRecord] that [format] reads. *)
Record LogRecord := {
  msg : message;
  levelname : string;
  created : Z
}.

Section Format.

(** [logging.Formatter.formatTime], which reads the time of creation, and
    [json.dumps]. *)
Variable formatTime : Z -> string.
Variable dumps : pydict -> string.

(** The dict that [format] hands to [json.dumps]. *)
Definition json_record (record : LogRecord) : pydict :=
  let json_record :=
    match msg record with
    | MsgDict d => d
    | MsgOther v => [("message", v)]
    end in
  update [("timestamp", VStr (formatTime (created record)));
          ("level", VStr (levelname record))] json_record.

(** [format] returns the text; a dict that was logged is the dict that is
    updated, so the record holds the updated dict afterwards. *)
Definition format (record : LogRecord) : string * LogRecord :=
  let after :=
    match msg record with
    | MsgDict _ =>
        {| msg := MsgDict (json_record record);
           levelname := levelname record;
           created := created record |}
    | MsgOther _ => record
    end in
  (dumps (json_record record), after).

End Format.

End JsonFormatter.

(** ** Notions for the further properties *)

(** From [e] to [e'] the flag and the marker are as they were, or the flag
    is cleared and the marker is gone. *)
Definition fate (e e' : Explorer) : Prop :=
  (running e' = running e /\ state_file (disk e') = state_file (disk e)) \/
  (running e' = false /\ state_file (disk e') = None).

(** A pass in which every height up to the head [H] is fetched and
    appended, whatever else happens. *)
Definition serves (tk : Tick) (hash : Z -> string) (lo H : Z) : Prop :=
  forall h, lo < h <= H ->
    node tk (Some h) = Block h (Some (hash h)) /\
    writable tk h = true /\ signal_before tk h = None.

(** A node that cannot be reached. *)
Definition unreachable (q : option Z) : reply := Raised.

(** A pass with the chain at [head] after which a termination signal is
    handled. *)
Definition last_pass (head : Z) : Tick :=
  {| node := chain head tag;
     writable := fun _ => true;
     signal_before := fun _ => None;
     signal_after := Some SIGTERM |}.

(** A log record as [logger.info] makes it of a dict. *)
Definition info_record (d : JsonFormatter.pydict) : JsonFormatter.LogRecord :=
  {| JsonFormatter.msg := JsonFormatter.MsgDict d;
     JsonFormatter.levelname := "INFO";
     JsonFormatter.created := 0 |}.

(** The block reported as processed before the next request for a height,
    if there is one. *)
Fixpoint appended_next (evs : list Event) : option (Z * string) :=
  match evs with
  | [] => None
  | Block_processed h hash :: _ => Some (h, hash)
  | Request (Some _) :: _ => None
  | _ :: rest => appended_next rest
  end.

(** The requests for a height in a log, in order, each with the block that
    was appended on it. *)
Fixpoint attempts (evs : list Event) : list (Z * option (Z * string)) :=
  match evs with
  | [] => []
  | Request (Some h) :: rest => (h, appended_next rest) :: attempts rest
  | _ :: rest => attempts rest
  end.

(** Every attempt but the last one led to an append. *)
Fixpoint only_last_may_fail (l : list (Z * option (Z * string))) : bool :=
  match l with
  | [] => true
  | (_, o) :: rest =>
      match rest with
      | [] => true
      | _ :: _ =>
          match o with
          | Some _ => only_last_may_fail rest
          | None => false
          end
      end
  end.

(** The blocks that the attempts appended. *)
Definition appended_of (l : list (Z * option (Z * string))) : list (Z * string) :=
  flat_map (fun a => match snd a with Some b => [b] | None => [] end) l.

(** The process a start makes where the storage is empty. *)
Definition fresh : Explorer :=
  _init_blocks_file true
    (set_state_file (Some ("processing" ++ NL)%string) (born empty_storage)).

(** ** The text primitives at work *)

Example strip_ex : Py.strip ("  processing" ++ NL) = "processing".
Proof. reflexivity. Qed.

Example readlines_ex :
  Py.readlines ("height,hash" ++ NL ++ "7,AB") = ["height,hash" ++ NL; "7,AB"].
Proof. reflexivity. Qed.

Example int_ex1 : Py.int " -1_000 " = Some (-1000).
Proof. reflexivity. Qed.

Example int_ex2 : Py.int EmptyString = None /\ Py.int "12__3" = None /\ Py.int "0x10" = None.
Proof. repeat split; reflexivity. Qed.

(** The separators FS..US are stripped by [strip()] and refused by [int()];
    the no-break space and NEL are skipped by both. *)
Example int_ex3 :
  let fs := String (ascii_of_nat 28) EmptyString in
  let nbsp := String (ascii_of_nat 160) EmptyString in
  let nel := String (ascii_of_nat 133) EmptyString in
  Py.int ("12" ++ fs) = None /\ Py.int ("12" ++ nbsp) = Some 12 /\
  Py.int (fs ++ "12" ++ nbsp) = None /\ Py.int (nbsp ++ "-5" ++ nel) = Some (-5) /\
  Py.int ("1" ++ nbsp ++ "2") = None /\
  Py.int ("12" ++ String (ascii_of_nat 178) EmptyString) = None /\
  Py.strip (nel ++ fs ++ "processing" ++ nbsp) = "processing".
Proof. repeat split; reflexivity. Qed.

Example str_ex : Py.str (-305) = "-305" /\ Py.str 0 = "0".
Proof. split; reflexivity. Qed.

Example range_ex : Py.range 2 6 = [2; 3; 4; 5] /\ Py.range 5 3 = [].
Proof. split; reflexivity. Qed.

(** ** Facts about the text primitives *)

Section Text.

Local Open Scope string_scope.

Lemma append_assoc (a b c : string) : (a ++ b) ++ c = a ++ (b ++ c).
Proof. induction a as [|x a IH]; simpl; [reflexivity | now rewrite IH]. Qed.

Lemma append_nil_r (a : string) : a ++ EmptyString = a.
Proof. induction a as [|x a IH]; simpl; [reflexivity | now rewrite IH]. Qed.

Lemma all_chars_app p a b :
  all_chars p (a ++ b) = all_chars p a && all_chars p b.
Proof.
  induction a as [|x a IH]; simpl; [reflexivity|].
  now rewrite IH, andb_assoc.
Qed.

Lemma all_chars_weaken (p q : ascii -> bool) s :
  (forall c, p c = true -> q c = true) ->
  all_chars p s = true -> all_chars q s = true.
Proof.
  intros Hpq; induction s as [|c s IH]; simpl; [reflexivity|].
  intros H; apply andb_prop in H as [Hc Hs].
  now rewrite (Hpq _ Hc), (IH Hs).
Qed.

Lemma uint_digits d : all_chars is_digit (NilEmpty.string_of_uint d) = true.
Proof. induction d; simpl; auto. Qed.

Lemma str_plain n : all_chars plain (Py.str n) = true.
Proof.
  unfold Py.str.
  destruct (Z.to_int n) as [d|d]; simpl.
  - apply all_chars_weaken with (p := is_digit); [|apply uint_digits].
    intros c Hc; unfold plain; now rewrite Hc.
  - apply all_chars_weaken with (p := is_digit); [|apply uint_digits].
    intros c Hc; unfold plain; now rewrite Hc.
Qed.

Lemma digit_cases c :
  is_digit c = true ->
  Py.isspace c = false /\ Ascii.eqb c "," = false /\
  Ascii.eqb c Py.LF = false /\ Ascii.eqb c Py.CR = false.
Proof.
  destruct c as [[] [] [] [] [] [] [] []]; vm_compute; intros H;
    try discriminate H; repeat split.
Qed.

Lemma plain_cases c :
  plain c = true ->
  Py.isspace c = false /\ Ascii.eqb c "," = false /\
  Ascii.eqb c Py.LF = false /\ Ascii.eqb c Py.CR = false.
Proof.
  destruct c as [[] [] [] [] [] [] [] []]; vm_compute; intros H;
    try discriminate H; repeat split.
Qed.

Lemma str_not_empty n : Py.str n <> EmptyString.
Proof.
  unfold Py.str. destruct n as [|p|p]; simpl; try discriminate.
  generalize (Unsigned.to_uint_nonnil p).
  destruct (Pos.to_uint p); simpl; try discriminate. congruence.
Qed.

(** *** [strip] *)

Lemma rstrip_keep a c b :
  Py.isspace c = false ->
  Py.rstrip (a ++ String c b) = a ++ String c (Py.rstrip b).
Proof.
  intros Hc. induction a as [|x a IH]; simpl.
  - now rewrite Hc.
  - rewrite IH. destruct a; simpl; now rewrite andb_false_r.
Qed.

Lemma rstrip_line_end s :
  Py.rstrip (s ++ NL) = Py.rstrip s.
Proof.
  induction s as [|x s IH]; simpl; [reflexivity|].
  now rewrite IH.
Qed.

Lemma lstrip_keep c s :
  Py.isspace c = false -> Py.lstrip (String c s) = String c s.
Proof. intros H; simpl; now rewrite H. Qed.

Lemma rstrip_plain s :
  all_chars plain s = true -> Py.rstrip s = s.
Proof.
  induction s as [|c s IH]; simpl; [reflexivity|].
  intros H; apply andb_prop in H as [Hc Hs].
  destruct (plain_cases c Hc) as [Hsp _].
  now rewrite Hsp, (IH Hs).
Qed.

Lemma strip_plain s :
  all_chars plain s = true -> Py.strip s = s.
Proof.
  intros H. unfold Py.strip. rewrite (rstrip_plain s H).
  destruct s as [|c s]; [reflexivity|].
  simpl in H. apply andb_prop in H as [Hc _].
  apply lstrip_keep. now destruct (plain_cases c Hc).
Qed.

(** The text [int()] parses is the text itself when it is a plain one. *)
Lemma plain_ascii_cases c :
  plain c = true ->
  Py.isspace_c c = false /\ (nat_of_ascii c <? 128)%nat = true.
Proof.
  destruct c as [[] [] [] [] [] [] [] []]; vm_compute; intros H;
    try discriminate H; repeat split.
Qed.

Lemma is_ascii_plain s :
  all_chars plain s = true -> Py.is_ascii s = true.
Proof.
  induction s as [|c s IH]; simpl; [reflexivity|].
  intros H; apply andb_prop in H as [Hc Hs].
  destruct (plain_ascii_cases c Hc) as [_ Ha].
  now rewrite Ha, (IH Hs).
Qed.

Lemma rstrip_c_plain s :
  all_chars plain s = true -> Py.rstrip_c s = s.
Proof.
  induction s as [|c s IH]; simpl; [reflexivity|].
  intros H; apply andb_prop in H as [Hc Hs].
  destruct (plain_ascii_cases c Hc) as [Hsp _].
  now rewrite Hsp, (IH Hs).
Qed.

Lemma int_form_plain s :
  all_chars plain s = true ->
  Py.lstrip_c (Py.rstrip_c (Py.ascii_form s)) = s.
Proof.
  intros H. unfold Py.ascii_form. rewrite (is_ascii_plain s H).
  rewrite (rstrip_c_plain s H).
  destruct s as [|c s]; [reflexivity|].
  simpl in H. apply andb_prop in H as [Hc _].
  destruct (plain_ascii_cases c Hc) as [Hsp _].
  simpl. now rewrite Hsp.
Qed.

(** *** [split(',')[0]] *)

Lemma split_comma_0_field a b :
  all_chars plain a = true ->
  Py.split_comma_0 (a ++ String "," b) = a.
Proof.
  induction a as [|c a IH]; simpl; [reflexivity|].
  intros H; apply andb_prop in H as [Hc Ha].
  destruct (plain_cases c Hc) as (_ & Hcomma & _).
  now rewrite Hcomma, (IH Ha).
Qed.

End Text.

(** *** [int] reads back what [str] writes *)

Section Decimal.

Lemma digits_step c k r acc seen :
  Py.digit c = Some k ->
  Py.digits (String c r) acc seen = Py.digits r (10 * acc + k) true.
Proof. intros H; simpl; now rewrite H. Qed.

Ltac digit_case IH k :=
  cbn [NilEmpty.string_of_uint Pos.of_uint_acc Pos.of_uint];
  rewrite (digits_step _ k) by reflexivity;
  try (rewrite <- IH; f_equal; lia).

Lemma digits_acc d p :
  Py.digits (NilEmpty.string_of_uint d) (Zpos p) true
  = Some (Zpos (Pos.of_uint_acc d p)).
Proof.
  revert p. induction d; intros p.
  - reflexivity.
  - digit_case IHd 0.
  - digit_case IHd 1.
  - digit_case IHd 2.
  - digit_case IHd 3.
  - digit_case IHd 4.
  - digit_case IHd 5.
  - digit_case IHd 6.
  - digit_case IHd 7.
  - digit_case IHd 8.
  - digit_case IHd 9.
Qed.

Lemma digits_uint d seen :
  d <> Decimal.Nil \/ seen = true ->
  Py.digits (NilEmpty.string_of_uint d) 0 seen = Some (Z.of_N (Pos.of_uint d)).
Proof.
  revert seen. induction d; intros seen H.
  - destruct H as [H|H]; [congruence | now rewrite H].
  - digit_case IHd 0. apply IHd; now right.
  - digit_case IHd 1. apply (digits_acc d 1).
  - digit_case IHd 2. apply (digits_acc d 2).
  - digit_case IHd 3. apply (digits_acc d 3).
  - digit_case IHd 4. apply (digits_acc d 4).
  - digit_case IHd 5. apply (digits_acc d 5).
  - digit_case IHd 6. apply (digits_acc d 6).
  - digit_case IHd 7. apply (digits_acc d 7).
  - digit_case IHd 8. apply (digits_acc d 8).
  - digit_case IHd 9. apply (digits_acc d 9).
Qed.

Lemma digits_positive p :
  Py.digits (NilEmpty.string_of_uint (Pos.to_uint p)) 0 false = Some (Zpos p).
Proof.
  rewrite digits_uint.
  - now rewrite Unsigned.of_to.
  - left. apply Unsigned.to_uint_nonnil.
Qed.

Lemma int_str n : Py.int (Py.str n) = Some n.
Proof.
  unfold Py.int. rewrite (int_form_plain _ (str_plain n)).
  unfold Py.str. destruct n as [|p|p]; simpl.
  - reflexivity.
  - generalize (digits_positive p).
    destruct (Pos.to_uint p); simpl; intros H; exact H.
  - now rewrite digits_positive.
Qed.

End Decimal.

(** *** Lines *)

Section Lines.

Lemma one_line_split s : one_line s = no_lf s && no_cr s.
Proof.
  unfold one_line, no_lf, no_cr.
  induction s as [|c s IH]; simpl; [reflexivity|].
  rewrite IH.
  destruct (Ascii.eqb c Py.LF), (Ascii.eqb c Py.CR), (all_chars _ s), (all_chars _ s);
    reflexivity.
Qed.

Lemma newlines_no_cr s : no_cr s = true -> Py.newlines false s = s.
Proof.
  unfold no_cr. induction s as [|c s IH]; simpl; [reflexivity|].
  intros H; apply andb_prop in H as [Hc Hs].
  apply negb_true_iff in Hc. rewrite Hc, (IH Hs).
  destruct (Ascii.eqb c Py.LF) eqn:E; [|reflexivity].
  apply Ascii.eqb_eq in E. now subst c.
Qed.

Lemma newlines_not_empty s :
  s <> EmptyString -> Py.newlines false s <> EmptyString.
Proof.
  destruct s as [|c s]; [congruence|]. intros _. simpl.
  destruct (Ascii.eqb c Py.CR); [discriminate|].
  destruct (Ascii.eqb c Py.LF); discriminate.
Qed.

Lemma newlines_app f a b :
  a <> EmptyString -> ends_lf a = true ->
  Py.newlines f (a ++ b) = Py.newlines f a ++ Py.newlines false b.
Proof.
  revert f. induction a as [|c a IH]; intros f Hne Hlf; [congruence|].
  destruct a as [|d a].
  - simpl in Hlf. simpl. rewrite Hlf.
    replace (Ascii.eqb c Py.CR) with false.
    + now destruct f.
    + apply Ascii.eqb_eq in Hlf. now subst c.
  - assert (Hr : forall g, Py.newlines g (String d a ++ b)
                           = Py.newlines g (String d a) ++ Py.newlines false b)
      by (intros g; apply IH; [discriminate | exact Hlf]).
    change (String c (String d a) ++ b) with (String c (String d a ++ b)).
    cbn [Py.newlines].
    destruct (Ascii.eqb c Py.CR).
    + now rewrite Hr.
    + destruct (Ascii.eqb c Py.LF); [destruct f|]; now rewrite Hr.
Qed.

Lemma ends_lf_cons c s :
  s <> EmptyString -> ends_lf (String c s) = ends_lf s.
Proof. destruct s; [congruence | reflexivity]. Qed.

Lemma ends_lf_after_lf s : ends_lf s = true -> ends_lf (String Py.LF s) = true.
Proof. destruct s; [reflexivity | auto]. Qed.

Lemma ends_lf_newlines f s :
  ends_lf s = true -> ends_lf (Py.newlines f s) = true.
Proof.
  revert f. induction s as [|c s IH]; intros f H; [reflexivity|].
  assert (Hs : (s = EmptyString /\ c = Py.LF) \/
               (s <> EmptyString /\ forall g, ends_lf (Py.newlines g s) = true)).
  { destruct s.
    - left. simpl in H. apply Ascii.eqb_eq in H. auto.
    - right. split; [discriminate | intros g; apply IH; exact H]. }
  destruct Hs as [[-> ->]|[Hne Hs]]; [now destruct f|].
  cbn [Py.newlines].
  destruct (Ascii.eqb c Py.CR); [apply ends_lf_after_lf, Hs|].
  destruct (Ascii.eqb c Py.LF).
  - destruct f; [apply Hs | apply ends_lf_after_lf, Hs].
  - rewrite ends_lf_cons; [apply Hs | now apply newlines_not_empty].
Qed.

Lemma ends_lf_app a b : b <> EmptyString -> ends_lf (a ++ b) = ends_lf b.
Proof.
  intros Hb. induction a as [|c a IH]; [reflexivity|].
  change (String c a ++ b) with (String c (a ++ b)).
  rewrite ends_lf_cons; [exact IH|].
  destruct a; simpl; [exact Hb | discriminate].
Qed.

Lemma splitlines_not_nil s : s <> EmptyString -> Py.cut_lines s <> [].
Proof.
  destruct s as [|c s]; [congruence|]. intros _. simpl.
  destruct (Ascii.eqb c Py.LF); [discriminate|].
  destruct (Py.cut_lines s); discriminate.
Qed.

Lemma splitlines_app a b :
  ends_lf a = true ->
  Py.cut_lines (a ++ b) = (Py.cut_lines a ++ Py.cut_lines b)%list.
Proof.
  induction a as [|c a IH]; intros H; [reflexivity|].
  destruct a as [|d a].
  - simpl in H. simpl. now rewrite H.
  - assert (Hr : Py.cut_lines (String d a ++ b)
                 = (Py.cut_lines (String d a) ++ Py.cut_lines b)%list)
      by (apply IH; exact H).
    change (String c (String d a) ++ b) with (String c (String d a ++ b)).
    cbn [Py.cut_lines]. cbn [Py.cut_lines] in Hr. rewrite Hr.
    destruct (Ascii.eqb c Py.LF); [reflexivity|].
    generalize (splitlines_not_nil (String d a)). cbn [Py.cut_lines].
    destruct (if Ascii.eqb d Py.LF then _ else _); [intros F; now destruct F | reflexivity].
Qed.

Lemma splitlines_one body :
  no_lf body = true -> Py.cut_lines (body ++ NL) = [body ++ NL].
Proof.
  unfold no_lf. induction body as [|c s IH]; [reflexivity|].
  simpl. intros H; apply andb_prop in H as [Hc Hs].
  apply negb_true_iff in Hc. now rewrite Hc, (IH Hs).
Qed.

End Lines.

(** *** Records on disk *)

Section Records.

Lemma lstrip_plain a b :
  all_chars plain a = true -> a <> EmptyString -> Py.lstrip (a ++ b) = a ++ b.
Proof.
  destruct a as [|c a]; [congruence|]. simpl. intros H _.
  apply andb_prop in H as [Hc _].
  destruct (plain_cases c Hc) as [Hsp _]. now rewrite Hsp.
Qed.

(** A record read back gives the height that was written, whatever the
    hash. *)
Lemma line_height h hash :
  Py.int (Py.split_comma_0 (Py.strip (record_line h hash))) = Some h.
Proof.
  unfold Py.strip.
  change (record_line h hash) with (Py.str h ++ String "," (hash ++ NL)).
  rewrite rstrip_keep by reflexivity.
  rewrite lstrip_plain by (apply str_plain || apply str_not_empty).
  rewrite split_comma_0_field by apply str_plain.
  apply int_str.
Qed.

Lemma record_line_body h hash : record_line h hash = record_body h hash ++ NL.
Proof.
  unfold record_line, record_body. now rewrite !append_assoc.
Qed.

Lemma str_one_line n : one_line (Py.str n) = true.
Proof.
  unfold one_line. apply all_chars_weaken with (p := plain); [|apply str_plain].
  intros c Hc. destruct (plain_cases c Hc) as (_ & _ & Hlf & Hcr).
  now rewrite Hlf, Hcr.
Qed.

Lemma record_body_one_line h hash :
  one_line hash = true -> one_line (record_body h hash) = true.
Proof.
  intros H. unfold record_body, one_line.
  rewrite !all_chars_app. fold (one_line (Py.str h)). fold (one_line hash).
  now rewrite str_one_line, H.
Qed.

Lemma record_line_no_cr h hash :
  one_line hash = true -> no_cr (record_line h hash) = true.
Proof.
  intros H. rewrite record_line_body. unfold no_cr. rewrite all_chars_app.
  fold (no_cr (record_body h hash)).
  pose proof (record_body_one_line h hash H) as Hb.
  rewrite one_line_split in Hb. apply andb_prop in Hb as [_ Hb].
  now rewrite Hb.
Qed.

Lemma record_line_ends_lf h hash : ends_lf (record_line h hash) = true.
Proof.
  rewrite record_line_body. rewrite ends_lf_app; [reflexivity | discriminate].
Qed.

Lemma record_line_not_empty h hash : record_line h hash <> EmptyString.
Proof.
  rewrite record_line_body. destruct (record_body h hash); discriminate.
Qed.

Lemma splitlines_record h hash :
  one_line hash = true -> Py.cut_lines (record_line h hash) = [record_line h hash].
Proof.
  intros H. rewrite record_line_body. apply splitlines_one.
  pose proof (record_body_one_line h hash H) as Hb.
  rewrite one_line_split in Hb. now apply andb_prop in Hb as [Hb _].
Qed.

(** Reading a ledger that ends in a complete record. *)
Lemma readlines_snoc L h hash :
  one_line hash = true -> L <> EmptyString -> ends_lf L = true ->
  Py.readlines (L ++ record_line h hash)
  = (Py.readlines L ++ [record_line h hash])%list.
Proof.
  intros Hh Hne Hlf. unfold Py.readlines, Py.universal_newlines.
  rewrite newlines_app by assumption.
  rewrite (newlines_no_cr (record_line h hash)) by now apply record_line_no_cr.
  rewrite splitlines_app by now apply ends_lf_newlines.
  now rewrite splitlines_record.
Qed.

Lemma readlines_not_nil L : L <> EmptyString -> Py.readlines L <> [].
Proof.
  intros H. unfold Py.readlines, Py.universal_newlines.
  now apply splitlines_not_nil, newlines_not_empty.
Qed.

Lemma last_snoc (l : list string) x d : last (l ++ [x])%list d = x.
Proof. apply last_last. Qed.

Lemma read_last_height_snoc L h hash :
  one_line hash = true -> L <> EmptyString -> ends_lf L = true ->
  read_last_height (L ++ record_line h hash) = Some (Some h).
Proof.
  intros Hh Hne Hlf. unfold read_last_height.
  rewrite readlines_snoc by assumption.
  pose proof (readlines_not_nil L Hne) as Hl.
  destruct (Py.readlines L) as [|l ls]; [congruence|].
  replace (1 <? List.length ((l :: ls) ++ [record_line h hash]))%nat with true.
  - unfold Py.last_line. rewrite last_snoc. now rewrite line_height.
  - symmetry. apply Nat.ltb_lt. rewrite length_app. simpl. lia.
Qed.

Lemma tail_height_snoc L h hash :
  one_line hash = true -> L <> EmptyString -> ends_lf L = true ->
  tail_height (Some (L ++ record_line h hash)) = Some h.
Proof.
  intros. unfold tail_height. now rewrite read_last_height_snoc.
Qed.

End Records.

(** *** The whole ledger *)

Section Ledger.

Lemma record_lines_app a b :
  record_lines (a ++ b)%list = record_lines a ++ record_lines b.
Proof.
  induction a as [|[h hash] a IH]; simpl; [reflexivity|].
  now rewrite IH, append_assoc.
Qed.

Lemma record_lines_snoc a h hash :
  record_lines (a ++ [(h, hash)])%list = record_lines a ++ record_line h hash.
Proof.
  rewrite record_lines_app. cbn [record_lines]. now rewrite append_nil_r.
Qed.

Lemma ledger_snoc a h hash :
  header ++ record_lines (a ++ [(h, hash)])%list
  = (header ++ record_lines a) ++ record_line h hash.
Proof. now rewrite record_lines_snoc, append_assoc. Qed.

Lemma record_lines_ends_lf blocks : ends_lf (record_lines blocks) = true.
Proof.
  induction blocks as [|[h hash] rest IH]; simpl; [reflexivity|].
  destruct (record_lines rest) eqn:E.
  - rewrite append_nil_r. apply record_line_ends_lf.
  - rewrite ends_lf_app; [exact IH | discriminate].
Qed.

Lemma ledger_ends_lf blocks : ends_lf (header ++ record_lines blocks) = true.
Proof.
  destruct (record_lines blocks) eqn:E.
  - reflexivity.
  - rewrite ends_lf_app; [|discriminate]. rewrite <- E. apply record_lines_ends_lf.
Qed.

Lemma ledger_not_empty blocks : header ++ record_lines blocks <> EmptyString.
Proof. discriminate. Qed.

Lemma clean_app a b : clean (a ++ b)%list = clean a && clean b.
Proof. apply forallb_app. Qed.

Lemma readlines_ledger blocks :
  clean blocks = true ->
  Py.readlines (header ++ record_lines blocks)
  = header :: map (fun b => record_line (fst b) (snd b)) blocks.
Proof.
  induction blocks as [|[h hash] rest IH] using rev_ind; intros Hc.
  - reflexivity.
  - rewrite clean_app in Hc. apply andb_prop in Hc as [Hrest Hb].
    simpl in Hb. rewrite andb_true_r in Hb.
    rewrite ledger_snoc.
    rewrite readlines_snoc;
      [| exact Hb | apply ledger_not_empty | apply ledger_ends_lf].
    rewrite (IH Hrest), map_app. reflexivity.
Qed.

Lemma ledger_heights_ledger blocks :
  clean blocks = true ->
  ledger_heights (header ++ record_lines blocks) = map (fun b => Some (fst b)) blocks.
Proof.
  intros Hc. unfold ledger_heights. rewrite (readlines_ledger _ Hc).
  cbn [tl]. rewrite map_map. apply map_ext. intros [h hash]. apply line_height.
Qed.

Lemma read_last_height_header : read_last_height header = None.
Proof. reflexivity. Qed.

Lemma read_last_height_ledger blocks h hash :
  clean blocks = true -> one_line hash = true ->
  read_last_height (header ++ record_lines (blocks ++ [(h, hash)])) = Some (Some h).
Proof.
  intros Hc Hh. rewrite ledger_snoc.
  apply read_last_height_snoc;
    [exact Hh | apply ledger_not_empty | apply ledger_ends_lf].
Qed.

End Ledger.

(** *** Ranges *)

Section Ranges.

Lemma range_nil lo hi : hi <= lo -> Py.range lo hi = [].
Proof.
  intros H. unfold Py.range. replace (Z.to_nat (hi - lo)) with 0%nat by lia.
  reflexivity.
Qed.

Lemma range_cons lo hi : lo < hi -> Py.range lo hi = lo :: Py.range (lo + 1) hi.
Proof.
  intros H. unfold Py.range.
  replace (Z.to_nat (hi - lo)) with (S (Z.to_nat (hi - (lo + 1)))) by lia.
  cbn [seq map]. f_equal; [lia|].
  rewrite <- seq_shift, map_map. apply map_ext. intros i. lia.
Qed.

Lemma range_app lo mid hi :
  lo <= mid <= hi -> Py.range lo hi = (Py.range lo mid ++ Py.range mid hi)%list.
Proof.
  intros H. remember (Z.to_nat (mid - lo)) as n eqn:Hn.
  revert lo H Hn. induction n as [|n IH]; intros lo H Hn.
  - assert (mid = lo) by lia. subst mid. now rewrite (range_nil lo lo) by lia.
  - rewrite (range_cons lo hi), (range_cons lo mid) by lia.
    cbn [app]. f_equal. apply IH; lia.
Qed.

Lemma range_snoc lo hi :
  lo <= hi -> Py.range lo (hi + 1) = (Py.range lo hi ++ [hi])%list.
Proof.
  intros H. rewrite (range_app lo hi (hi + 1)) by lia.
  rewrite (range_cons hi (hi + 1)) by lia.
  now rewrite (range_nil (hi + 1) (hi + 1)) by lia.
Qed.

Lemma in_range j lo hi : In j (Py.range lo hi) <-> lo <= j < hi.
Proof.
  unfold Py.range. rewrite in_map_iff. split.
  - intros (i & <- & Hi). apply in_seq in Hi. lia.
  - intros H. exists (Z.to_nat (j - lo)). split; [lia|]. apply in_seq. lia.
Qed.

Lemma range_length lo hi : List.length (Py.range lo hi) = Z.to_nat (hi - lo).
Proof. unfold Py.range. now rewrite length_map, length_seq. Qed.

Lemma last_range lo hi d : lo < hi -> last (Py.range lo hi) d = hi - 1.
Proof.
  intros H. replace hi with ((hi - 1) + 1) at 1 by lia.
  rewrite range_snoc by lia. apply last_last.
Qed.

End Ranges.

(** ** The loop of [process_missing_blocks] *)

Section Loop.

Local Open Scope list_scope.

Lemma requested_app a b : requested (a ++ b) = requested a ++ requested b.
Proof.
  induction a as [|ev a IH]; [reflexivity|].
  destruct ev as [| | | | | | |[h|] | | | | |]; simpl; now rewrite IH.
Qed.

Lemma processed_app a b : processed (a ++ b) = processed a ++ processed b.
Proof.
  induction a as [|ev a IH]; [reflexivity|].
  destruct ev; simpl; now rewrite IH.
Qed.

Lemma append_all_app a b f : append_all (a ++ b) f = append_all b (append_all a f).
Proof. apply fold_left_app. Qed.

Lemma last_app_default {A} (a b : list A) d : last (a ++ b) d = last b (last a d).
Proof.
  induction b as [|x b IH] using rev_ind.
  - now rewrite app_nil_r.
  - now rewrite app_assoc, !last_last.
Qed.

Lemma new_events_app e e' evs : log e' = log e ++ evs -> new_events e e' = evs.
Proof.
  intros H. unfold new_events. rewrite H.
  rewrite skipn_app, skipn_all, Nat.sub_diag. reflexivity.
Qed.

Lemma handle_shutdown_untouched sg e :
  untouched e (handle_shutdown sg e) /\ running (handle_shutdown sg e) = false.
Proof.
  unfold handle_shutdown, untouched. simpl.
  destruct (state_file (disk e)); simpl; auto.
Qed.

Lemma handle_shutdown_log sg e :
  log (handle_shutdown sg e)
  = log e ++ [Shutdown_initiated sg (last_processed_height e)].
Proof.
  unfold handle_shutdown. cbn. destruct (state_file (disk e)); reflexivity.
Qed.

Ltac side :=
  first [ reflexivity | eassumption | split; reflexivity | split; assumption
        | intros; congruence | left; assumption | right; congruence ].

Lemma iteration_effect tk h e :
  exists evs,
    log (snd (iteration tk h e)) = log e ++ evs /\
    effect tk h e (fst (iteration tk h e)) (snd (iteration tk h e)) evs.
Proof.
  unfold iteration.
  destruct (signal_before tk h) as [sg|] eqn:Hsig; cbn [deliver].
  - destruct (handle_shutdown_untouched sg e) as [[Hc Hb] Hr].
    rewrite Hr. cbn [negb fst snd].
    exists [Shutdown_initiated sg (last_processed_height e);
            Shutdown_processing (last_processed_height (handle_shutdown sg e))].
    split.
    + unfold handle_shutdown. simpl.
      destruct (state_file (disk e)); simpl; now rewrite <- app_assoc.
    + apply stopped; side.
  - destruct (running e) eqn:Hrun; cbn [negb].
    + unfold get_block.
      destruct (node tk (Some h)) as [|bh [hash|]] eqn:Hnode.
      * exists [Request (Some h); Error_fetching (Some h)]. split.
        { simpl. now rewrite <- app_assoc. }
        apply failed; side.
      * unfold append_block.
        destruct (writable tk h) eqn:Hw.
        { exists [Request (Some h); Block_processed bh hash]. split.
          - simpl. now rewrite <- app_assoc.
          - cbn [fst snd]. eapply appended; side. }
        { exists [Request (Some h); Error_appending bh]. split.
          - simpl. now rewrite <- app_assoc.
          - apply failed; side. }
      * exists [Request (Some h)]. split; [reflexivity|].
        apply failed; side.
    + exists [Shutdown_processing (last_processed_height e)].
      split; [reflexivity|].
      apply stopped; side.
Qed.

Lemma last_cons_default {A} (x : A) l d : last (x :: l) d = last l x.
Proof.
  revert x d. induction l as [|y l IH]; intros x d; [reflexivity|].
  change (last (x :: y :: l) d) with (last (y :: l) d).
  now rewrite (IH y d), (IH y x).
Qed.

(** Whatever the environment does: the ledger grows by the records of the
    blocks reported as processed, the cursor is the height of the last of
    them, and only heights of the list are asked for. *)
Lemma for_heights_trace tk hs : forall e,
  exists evs,
    log (snd (for_heights tk hs e)) = log e ++ evs /\
    blocks_file (disk (snd (for_heights tk hs e)))
      = append_all (processed evs) (blocks_file (disk e)) /\
    last_processed_height (snd (for_heights tk hs e))
      = last (map fst (processed evs)) (last_processed_height e) /\
    (forall j, In j (requested evs) -> In j hs) /\
    (fst (for_heights tk hs e) = Next ->
     running (snd (for_heights tk hs e)) = running e).
Proof.
  induction hs as [|h rest IH]; intros e.
  - exists []. cbn. rewrite app_nil_r. repeat split; auto.
  - cbn [for_heights].
    destruct (iteration_effect tk h e) as (evs1 & Hlog1 & Heff).
    destruct (iteration tk h e) as [fl e1]. cbn [fst snd] in *.
    inversion Heff as [e' evs Hwhy Hreq Hproc [Hc Hb] Hrun
                      |e' evs Hrun Hsig Hnode Hreq Hproc [Hc Hb] Hrun'
                      |e' bh hash Hrun Hsig Hnode Hw Hc Hb Hrun'];
      subst fl evs1.
    + exists evs. cbn [fst snd]. rewrite Hreq, Hproc. cbn.
      repeat split; auto; [contradiction | discriminate].
    + exists evs. cbn [fst snd]. rewrite Hreq, Hproc. cbn.
      repeat split; auto; [|discriminate].
      intros j [<-|[]]. now left.
    + destruct (IH e1) as (evs2 & Hlog2 & Hb2 & Hc2 & Hreq2 & Hrun2).
      exists ([Request (Some h); Block_processed bh hash] ++ evs2).
      rewrite Hlog2, Hlog1, Hb2, Hc2, Hb, Hc.
      change (processed ([Request (Some h); Block_processed bh hash] ++ evs2))
        with ((bh, hash) :: processed evs2).
      change (requested ([Request (Some h); Block_processed bh hash] ++ evs2))
        with (h :: requested evs2).
      cbn [map fst]. rewrite last_cons_default, <- app_assoc.
      repeat split; auto.
      * intros j [<-|Hj]; [now left | right; auto].
      * intros Hn. rewrite (Hrun2 Hn). congruence.
Qed.

Lemma for_heights_app tk l1 l2 e :
  for_heights tk (l1 ++ l2) e
  = match for_heights tk l1 e with
    | (Next, e1) => for_heights tk l2 e1
    | (Leave, e1) => (Leave, e1)
    end.
Proof.
  revert e. induction l1 as [|h l1 IH]; intros e; [reflexivity|].
  cbn [app for_heights].
  destruct (iteration tk h e) as [[|] e1]; [apply IH | reflexivity].
Qed.

Lemma process_missing_blocks_loop tk current e :
  last_processed_height e <= current ->
  process_missing_blocks tk current e
  = snd (for_heights tk
           (Py.range (last_processed_height e + 1) (current + 1)) e).
Proof.
  intros H. unfold process_missing_blocks.
  destruct (last_processed_height e <? current) eqn:E; [reflexivity|].
  apply Z.ltb_ge in E. now rewrite range_nil by lia.
Qed.

Lemma processed_success hash hs :
  processed (success_events hash hs) = blocks_of hash hs.
Proof.
  unfold success_events, blocks_of.
  induction hs as [|h hs IH]; [reflexivity|].
  cbn [flat_map map app processed]. now rewrite IH.
Qed.

Lemma requested_success hash hs : requested (success_events hash hs) = hs.
Proof.
  unfold success_events.
  induction hs as [|h hs IH]; [reflexivity|].
  cbn [flat_map app requested]. now rewrite IH.
Qed.

Lemma heights_blocks_of hash hs : map fst (blocks_of hash hs) = hs.
Proof.
  unfold blocks_of. rewrite map_map. cbn. apply map_id.
Qed.

(** Every height of the list is fetched and appended. *)
Lemma for_heights_success tk hash hs : forall e,
  running e = true ->
  (forall h, In h hs ->
     node tk (Some h) = Block h (Some (hash h)) /\
     writable tk h = true /\ signal_before tk h = None) ->
  exists e',
    for_heights tk hs e = (Next, e') /\
    log e' = log e ++ success_events hash hs /\
    last_processed_height e' = last hs (last_processed_height e) /\
    blocks_file (disk e')
      = append_all (blocks_of hash hs) (blocks_file (disk e)) /\
    running e' = true.
Proof.
  induction hs as [|h rest IH]; intros e Hrun Hall.
  - exists e. cbn. rewrite app_nil_r. auto.
  - destruct (Hall h (or_introl eq_refl)) as (Hn & Hw & Hs).
    cbn [for_heights].
    destruct (iteration_effect tk h e) as (evs1 & Hlog1 & Heff).
    destruct (iteration tk h e) as [fl e1]. cbn [fst snd] in *.
    inversion Heff as [e' evs Hwhy _ _ _ _
                      |e' evs _ _ Hnode _ _ _ _
                      |e' bh hash' _ _ Hnode _ Hc Hb Hrun'];
      subst fl evs1.
    + destruct Hwhy; congruence.
    + specialize (Hnode _ _ Hn). congruence.
    + rewrite Hn in Hnode. injection Hnode as <- <-.
      destruct (IH e1 Hrun') as (e2 & Hfor & Hlog2 & Hc2 & Hb2 & Hrun2).
      { intros j Hj. apply Hall. now right. }
      exists e2. rewrite Hfor, Hlog2, Hlog1, Hc2, Hb2, Hb, Hc.
      cbn [success_events flat_map blocks_of map].
      rewrite last_cons_default, <- app_assoc.
      repeat split; auto.
Qed.

(** With a node that answers with the height asked for, the blocks
    processed are those of the heights from the one after the cursor up to
    the new cursor. *)
Lemma for_heights_faithful tk :
  faithful tk -> forall n lo e,
  last_processed_height e = lo - 1 ->
  exists evs,
    log (snd (for_heights tk (Py.range lo (lo + Z.of_nat n)) e)) = log e ++ evs /\
    map fst (processed evs)
      = Py.range lo (last_processed_height
                       (snd (for_heights tk (Py.range lo (lo + Z.of_nat n)) e)) + 1) /\
    lo - 1 <= last_processed_height
                (snd (for_heights tk (Py.range lo (lo + Z.of_nat n)) e))
           <= lo - 1 + Z.of_nat n /\
    Forall (fun b => exists h, node tk (Some h) = Block (fst b) (Some (snd b)))
           (processed evs).
Proof.
  intros Hf. induction n as [|n IH]; intros lo e Hc.
  - rewrite range_nil by lia. exists []. cbn. rewrite app_nil_r, Hc.
    rewrite range_nil by lia. repeat split; auto; lia.
  - rewrite (range_cons lo) by lia.
    replace (lo + Z.of_nat (S n)) with (lo + 1 + Z.of_nat n) by lia.
    cbn [for_heights].
    destruct (iteration_effect tk lo e) as (evs1 & Hlog1 & Heff).
    destruct (iteration tk lo e) as [fl e1]. cbn [fst snd] in *.
    inversion Heff as [e' evs _ _ Hproc [Hc1 _] _
                      |e' evs _ _ _ _ Hproc [Hc1 _] _
                      |e' bh hash _ _ Hnode _ Hc1 _ _];
      subst fl evs1.
    + exists evs. cbn [fst snd]. rewrite Hproc, Hc1, Hc.
      rewrite range_nil by lia. repeat split; auto; lia.
    + exists evs. cbn [fst snd]. rewrite Hproc, Hc1, Hc.
      rewrite range_nil by lia. repeat split; auto; lia.
    + assert (bh = lo) as ->.
      { specialize (Hf lo). rewrite Hnode in Hf. cbn in Hf. lia. }
      destruct (IH (lo + 1) e1) as (evs2 & Hlog2 & Hh2 & Hb2 & Hall2); [lia|].
      exists ([Request (Some lo); Block_processed lo hash] ++ evs2).
      rewrite Hlog2, Hlog1, <- app_assoc.
      change (processed ([Request (Some lo); Block_processed lo hash] ++ evs2))
        with ((lo, hash) :: processed evs2).
      cbn [map fst]. rewrite Hh2.
      repeat split; try lia.
      * symmetry. apply range_cons. lia.
      * constructor; [exists lo; exact Hnode | exact Hall2].
Qed.

Lemma append_all_some blocks L :
  append_all blocks (Some L) = Some (L ++ record_lines blocks)%string.
Proof.
  revert L. induction blocks as [|[h hash] rest IH]; intros L; cbn.
  - now rewrite append_nil_r.
  - fold (append_all rest (Some (L ++ record_line h hash)%string)).
    now rewrite IH, append_assoc.
Qed.

Lemma append_all_none b blocks :
  append_all (b :: blocks) None
  = Some (record_lines (b :: blocks)).
Proof.
  destruct b as [h hash]. cbn.
  fold (append_all blocks (Some (record_line h hash))).
  now rewrite append_all_some.
Qed.

Lemma record_lines_not_empty b blocks : record_lines (b :: blocks) <> EmptyString.
Proof.
  destruct b as [h hash]. cbn. generalize (record_line_not_empty h hash).
  destruct (record_line h hash); [congruence | discriminate].
Qed.

(** After at least two appends the ledger ends in a record that a start of
    the program reads back. *)
Lemma tail_height_append_all b blocks h hash f :
  one_line hash = true ->
  tail_height (append_all (b :: blocks ++ [(h, hash)]) f) = Some h.
Proof.
  intros Hh.
  assert (Hne : record_lines (b :: blocks) <> EmptyString)
    by apply record_lines_not_empty.
  change (b :: blocks ++ [(h, hash)]) with ((b :: blocks) ++ [(h, hash)]).
  destruct f as [L|].
  - rewrite append_all_some, record_lines_snoc, <- append_assoc.
    apply tail_height_snoc; [exact Hh | |].
    + destruct L; [exact Hne | discriminate].
    + rewrite ends_lf_app by exact Hne. apply record_lines_ends_lf.
  - cbn [app]. rewrite append_all_none.
    change (b :: blocks ++ [(h, hash)]) with ((b :: blocks) ++ [(h, hash)]).
    rewrite record_lines_snoc.
    apply tail_height_snoc; [exact Hh | exact Hne | apply record_lines_ends_lf].
Qed.

(** One append is enough on a ledger that ends in a line end. *)
Lemma tail_height_grown text blocks h hash :
  one_line hash = true ->
  tail_height (append_all (blocks ++ [(h, hash)]) (Some (text ++ NL)%string)) = Some h.
Proof.
  intros Hh.
  assert (Hnl : ends_lf (text ++ NL) = true)
    by (rewrite ends_lf_app by discriminate; reflexivity).
  assert (Hne : (text ++ NL)%string <> EmptyString)
    by (destruct text; discriminate).
  rewrite append_all_some, record_lines_snoc, <- append_assoc.
  apply tail_height_snoc; [exact Hh | |].
  - destruct (text ++ NL)%string; [congruence | discriminate].
  - destruct (record_lines blocks) eqn:E.
    + now rewrite append_nil_r.
    + rewrite ends_lf_app by discriminate. rewrite <- E. apply record_lines_ends_lf.
Qed.

Lemma start_cursor_tail f k : tail_height f = Some k -> start_cursor f = k.
Proof.
  unfold tail_height, start_cursor, _init_blocks_file.
  cbn [born disk blocks_file].
  destruct f as [content|]; [|discriminate].
  destruct (read_last_height content) as [[h|]|]; try discriminate.
  intros [= ->]. reflexivity.
Qed.

Lemma iteration_fails tk h e :
  running e = true -> signal_before tk h = None -> fails_at tk h = true ->
  exists evs,
    fst (iteration tk h e) = Leave /\
    log (snd (iteration tk h e)) = log e ++ evs /\
    requested evs = [h] /\ processed evs = [] /\
    untouched e (snd (iteration tk h e)).
Proof.
  intros Hrun Hsig Hfail.
  destruct (iteration_effect tk h e) as (evs & Hlog & Heff).
  exists evs.
  inversion Heff as [e' evs' Hwhy _ _ _ _
                    |e' evs' _ _ _ Hreq Hproc Hun _
                    |e' bh hash _ _ Hnode Hw _ _ _].
  - destruct Hwhy; congruence.
  - auto.
  - unfold fails_at in Hfail. rewrite Hnode, Hw in Hfail. discriminate.
Qed.

Lemma iteration_stops tk h e :
  running e = false \/ signal_before tk h <> None ->
  exists evs,
    fst (iteration tk h e) = Leave /\
    log (snd (iteration tk h e)) = log e ++ evs /\
    requested evs = [] /\ processed evs = [] /\
    untouched e (snd (iteration tk h e)) /\
    running (snd (iteration tk h e)) = false.
Proof.
  intros Hwhy.
  destruct (iteration_effect tk h e) as (evs & Hlog & Heff).
  exists evs.
  inversion Heff as [e' evs' _ Hreq Hproc Hun Hrun
                    |e' evs' Hrun Hsig _ _ _ _ _
                    |e' bh hash Hrun Hsig _ _ _ _ _].
  - auto 6.
  - destruct Hwhy; congruence.
  - destruct Hwhy; congruence.
Qed.

End Loop.

(** ** Properties of a pass *)

Section Pass.

Local Open Scope list_scope.

(** C1 (idempotent resume).  The cursor stands at the tail height [k] of
    the ledger, the head of the chain is at [k + 5], the flag is set and no
    signal comes, and for each height from [k + 1] to [k + 5] the node
    answers with the block of that height and the append goes through.
    Then [process_missing_blocks] leaves the cursor at [k + 5]; the ledger
    has grown by the records of [k + 1], ..., [k + 5] in this order, and
    nothing else; they were asked for and processed in this order; and a
    start of the program reads the tail height [k + 5] back from the file
    (the hash of the last block being one line of text). *)
Theorem resume_five_blocks tk (hash : Z -> string) e k :
  last_processed_height e = k ->
  running e = true ->
  (forall h, k < h <= k + 5 ->
     node tk (Some h) = Block h (Some (hash h)) /\
     writable tk h = true /\ signal_before tk h = None) ->
  let e' := process_missing_blocks tk (k + 5) e in
  last_processed_height e' = k + 5 /\
  blocks_file (disk e')
    = append_all (blocks_of hash (Py.range (k + 1) (k + 6)))
                 (blocks_file (disk e)) /\
  Py.range (k + 1) (k + 6) = [k + 1; k + 2; k + 3; k + 4; k + 5] /\
  new_events e e' = success_events hash (Py.range (k + 1) (k + 6)) /\
  (one_line (hash (k + 5)) = true ->
   tail_height (blocks_file (disk e')) = Some (k + 5)).
Proof.
  intros Hk Hrun Hall e'. subst e'.
  rewrite process_missing_blocks_loop by lia. rewrite Hk.
  replace (k + 5 + 1) with (k + 6) by lia.
  destruct (for_heights_success tk hash (Py.range (k + 1) (k + 6)) e Hrun)
    as (e1 & Hfor & Hlog & Hc & Hb & _).
  { intros h Hh. apply in_range in Hh. apply Hall. lia. }
  rewrite Hfor. cbn [snd].
  assert (Hr : Py.range (k + 1) (k + 6) = [k + 1; k + 2; k + 3; k + 4; k + 5]).
  { rewrite (range_cons (k + 1)) by lia.
    rewrite (range_cons (k + 1 + 1)) by lia.
    rewrite (range_cons (k + 1 + 1 + 1)) by lia.
    rewrite (range_cons (k + 1 + 1 + 1 + 1)) by lia.
    rewrite (range_cons (k + 1 + 1 + 1 + 1 + 1)) by lia.
    rewrite range_nil by lia.
    repeat (f_equal; try lia). }
  split; [|split; [|split; [|split]]].
  - rewrite Hc, last_range by lia. lia.
  - exact Hb.
  - exact Hr.
  - now apply new_events_app.
  - intros Hone. rewrite Hb, Hr.
    change (blocks_of hash [k + 1; k + 2; k + 3; k + 4; k + 5])
      with ((k + 1, hash (k + 1))
              :: [(k + 2, hash (k + 2)); (k + 3, hash (k + 3));
                  (k + 4, hash (k + 4))] ++ [(k + 5, hash (k + 5))]).
    now apply tail_height_append_all.
Qed.

(** C3 (gap-free halt), as amended.  Take a pass that begins with the
    cursor at the tail height of the ledger, as a start that reads the
    ledger leaves it, on a ledger that ends in a line end, and that comes to
    the height [h]: the flag is set and no signal comes, and every height
    before [h] is fetched, the node answering with the block of the height
    asked for and a hash of one line, and appended.  When the fetch or the
    append for [h] fails, the loop ends at [h]: the tail height of the
    ledger after the pass, as a start reads it, is [h - 1], and it is the
    height on the last line as soon as the ledger has a record; the cursor
    is [h - 1] too; the ledger has grown by the records of the heights
    before [h] and by nothing else; and no height after [h] is asked
    for. *)
Theorem halt_at_failure tk (hash : Z -> string) e current h text :
  running e = true ->
  last_processed_height e < h <= current ->
  blocks_file (disk e) = Some (text ++ NL)%string ->
  start_cursor (blocks_file (disk e)) = last_processed_height e ->
  (forall j, last_processed_height e < j < h ->
     node tk (Some j) = Block j (Some (hash j)) /\ writable tk j = true /\
     one_line (hash j) = true) ->
  (forall j, last_processed_height e < j <= h -> signal_before tk j = None) ->
  fails_at tk h = true ->
  let e' := process_missing_blocks tk current e in
  let before := Py.range (last_processed_height e + 1) h in
  start_cursor (blocks_file (disk e')) = h - 1 /\
  (tail_height (blocks_file (disk e)) = Some (last_processed_height e) \/
   last_processed_height e + 1 < h ->
   tail_height (blocks_file (disk e')) = Some (h - 1)) /\
  last_processed_height e' = h - 1 /\
  blocks_file (disk e') = append_all (blocks_of hash before) (blocks_file (disk e)) /\
  processed (new_events e e') = blocks_of hash before /\
  requested (new_events e e') = before ++ [h].
Proof.
  intros Hrun Hh Hfile Hsync Hok Hsig Hfail e' before. subst e' before.
  rewrite process_missing_blocks_loop by lia.
  remember (last_processed_height e) as c eqn:Hcur.
  rewrite (range_app (c + 1) h (current + 1)) by lia.
  rewrite (range_cons h (current + 1)) by lia.
  rewrite for_heights_app.
  destruct (for_heights_success tk hash (Py.range (c + 1) h) e Hrun)
    as (e1 & Hfor & Hlog1 & Hc1 & Hb1 & Hrun1).
  { intros j Hj. apply in_range in Hj.
    destruct (Hok j) as (Hn & Hw & _); [lia|]. repeat split; auto. apply Hsig. lia. }
  rewrite Hfor. cbn [for_heights].
  destruct (iteration_fails tk h e1 Hrun1) as (evs & Hfl & Hlog2 & Hreq & Hproc & Hc2 & Hb2);
    [apply Hsig; lia | exact Hfail |].
  destruct (iteration tk h e1) as [fl e2]. cbn [fst snd] in *. subst fl.
  cbn [snd].
  assert (Hnew : new_events e e2 = success_events hash (Py.range (c + 1) h) ++ evs).
  { apply new_events_app. now rewrite Hlog2, Hlog1, <- app_assoc. }
  rewrite Hnew, processed_app, requested_app, Hproc, Hreq,
    processed_success, requested_success, app_nil_r.
  assert (Hledger : blocks_file (disk e2)
                    = append_all (blocks_of hash (Py.range (c + 1) h))
                                 (blocks_file (disk e)))
    by now rewrite Hb2, Hb1.
  assert (Htail : c + 1 < h -> tail_height (blocks_file (disk e2)) = Some (h - 1)).
  { intros Hlt. rewrite Hledger, Hfile.
    replace h with (h - 1 + 1) at 1 by lia.
    rewrite range_snoc by lia. unfold blocks_of. rewrite map_app. cbn [map].
    apply tail_height_grown. apply Hok. lia. }
  assert (Hsame : h = c + 1 -> blocks_file (disk e2) = blocks_file (disk e)).
  { intros ->. rewrite Hledger, range_nil by lia. reflexivity. }
  split; [|split; [|split; [|split; [|split]]]]; auto.
  - destruct (Z.eq_dec h (c + 1)) as [Heq|Hne].
    + rewrite (Hsame Heq), Hsync. lia.
    + apply start_cursor_tail, Htail. lia.
  - intros [Hin|Hlt]; [|now apply Htail].
    destruct (Z.eq_dec h (c + 1)) as [Heq|Hne].
    + rewrite (Hsame Heq), Hin. f_equal. lia.
    + apply Htail. lia.
  - rewrite Hc2, Hc1.
    destruct (Z.eq_dec h (c + 1)) as [->|Hne].
    + rewrite range_nil by lia. cbn. lia.
    + now rewrite last_range by lia.
Qed.

(** C8 (shutdown during backfill).  When the flag is cleared before the
    iteration for [h] begins (it was cleared when the pass began, or a
    signal is handled before the iteration tests it), no height from [h]
    on is asked from the node, and the pass ends with the ledger and the
    cursor that the heights below [h] alone give: the ledger has grown by
    the records of the blocks processed and by nothing else, and the cursor
    is the height of the last of them. *)
Theorem shutdown_stops_backfill tk e current h :
  last_processed_height e < h <= current ->
  running e = false \/ signal_before tk h <> None ->
  let e' := process_missing_blocks tk current e in
  let below := process_missing_blocks tk (h - 1) e in
  (forall j, In j (requested (new_events e e')) -> j < h) /\
  blocks_file (disk e') = blocks_file (disk below) /\
  last_processed_height e' = last_processed_height below /\
  blocks_file (disk e')
    = append_all (processed (new_events e e')) (blocks_file (disk e)) /\
  last_processed_height e'
    = last (map fst (processed (new_events e e'))) (last_processed_height e).
Proof.
  intros Hh Hwhy e' below. subst e' below.
  rewrite !process_missing_blocks_loop by lia.
  remember (last_processed_height e) as c eqn:Hcur.
  replace (h - 1 + 1) with h by lia.
  rewrite (range_app (c + 1) h (current + 1)) by lia.
  rewrite (range_cons h (current + 1)) by lia.
  rewrite for_heights_app.
  destruct (for_heights_trace tk (Py.range (c + 1) h) e)
    as (evs1 & Hlog1 & Hb1 & Hc1 & Hreq1 & Hrun1).
  destruct (for_heights tk (Py.range (c + 1) h) e) as [[|] e1];
    cbn [fst snd] in *.
  - (* the iteration for h begins *)
    cbn [for_heights].
    destruct (iteration_stops tk h e1)
      as (evs2 & Hfl & Hlog2 & Hreq2 & Hproc2 & [Hc2 Hb2] & _).
    { destruct Hwhy as [Hr|Hs]; [left | now right].
      rewrite Hrun1; auto. }
    destruct (iteration tk h e1) as [fl e2]. cbn [fst snd] in *. subst fl.
    cbn [snd].
    assert (Hnew : new_events e e2 = evs1 ++ evs2).
    { apply new_events_app. now rewrite Hlog2, Hlog1, <- app_assoc. }
    rewrite Hnew, processed_app, requested_app, Hproc2, Hreq2, !app_nil_r.
    repeat split; try congruence.
    intros j Hj. apply Hreq1, in_range in Hj. lia.
  - (* the loop was left before *)
    rewrite (new_events_app e e1 evs1 Hlog1).
    repeat split; auto; try congruence.
    intros j Hj. apply Hreq1, in_range in Hj. lia.
Qed.

(** C9 (nothing to do).  When the head the node reports is not above the
    cursor, the pass asks for no block by height, appends nothing and
    leaves the cursor: [process_missing_blocks] returns the object as it
    got it, and all the pass adds to the log is the request for the
    head (and the record of a signal, if one comes during the pass). *)
Theorem idle_pass tk e head_height head_hash :
  node tk None = Block head_height head_hash ->
  head_height <= last_processed_height e ->
  process_missing_blocks tk head_height e = e /\
  poll tk e = deliver (signal_after tk) (emit (Request None) e) /\
  last_processed_height (poll tk e) = last_processed_height e /\
  blocks_file (disk (poll tk e)) = blocks_file (disk e) /\
  requested (new_events e (poll tk e)) = [] /\
  processed (new_events e (poll tk e)) = [].
Proof.
  intros Hnode Hle.
  assert (Hpmb : forall e0, last_processed_height e0 = last_processed_height e ->
                            process_missing_blocks tk head_height e0 = e0).
  { intros e0 H0. unfold process_missing_blocks. rewrite H0.
    now replace (last_processed_height e <? head_height) with false
      by (symmetry; apply Z.ltb_ge; lia). }
  assert (Hpoll : poll tk e = deliver (signal_after tk) (emit (Request None) e)).
  { unfold poll, get_block. rewrite Hnode. now rewrite Hpmb. }
  split; [now apply Hpmb|]. split; [exact Hpoll|].
  rewrite Hpoll.
  destruct (signal_after tk) as [sg|]; cbn [deliver].
  - destruct (handle_shutdown_untouched sg (emit (Request None) e)) as [[Hc Hb] _].
    rewrite Hc, Hb.
    rewrite (new_events_app e _ [Request None;
               Shutdown_initiated sg (last_processed_height e)]).
    + repeat split.
    + rewrite handle_shutdown_log. cbn. now rewrite <- app_assoc.
  - rewrite (new_events_app e _ [Request None]) by reflexivity.
    repeat split.
Qed.

End Pass.

(** ** Properties of the start *)

Section Start.

Local Open Scope list_scope.

Lemma acquire_free e :
  lock_free (disk e) ->
  _check_and_acquire_lock e
  = (true, set_state_file (Some ("processing" ++ NL)%string) e).
Proof.
  intros Hfree. unfold _check_and_acquire_lock.
  destruct (state_file (disk e)) as [content|] eqn:E; [|reflexivity].
  destruct (String.eqb_spec (marker_token content) "processing") as [Heq|Hne];
    [|reflexivity].
  now destruct (Hfree content E).
Qed.

Lemma init_free readable d :
  lock_free d ->
  __init__ readable d
  = Constructed (_init_blocks_file readable
                   (set_state_file (Some ("processing" ++ NL)%string) (born d))).
Proof.
  intros Hfree. unfold __init__. fold (born d).
  now rewrite (acquire_free (born d) Hfree).
Qed.

(** C7 (mutual exclusion).  When the marker holds [processing] (with or
    without white space around it, as the program itself writes it with a
    line end), [_check_and_acquire_lock] returns false and leaves the
    marker, and the constructor ends in [sys.exit(0)] with the storage as
    it was: whatever the ledger holds and whether or not it can be read,
    it is neither read nor written, the log has the two records of the
    exit only. *)
Theorem held_lock_exits readable d content :
  state_file d = Some content ->
  marker_token content = "processing"%string ->
  fst (_check_and_acquire_lock (born d)) = false /\
  disk (snd (_check_and_acquire_lock (born d))) = d /\
  exists e,
    __init__ readable d = SysExit 0 e /\
    disk e = d /\
    log e = [Init_other_running; Init_exiting].
Proof.
  intros Hfile Htoken.
  assert (Hlock : _check_and_acquire_lock (born d)
                  = (false, emit Init_other_running (born d))).
  { unfold _check_and_acquire_lock. cbn [born disk]. rewrite Hfile, Htoken.
    reflexivity. }
  rewrite Hlock. repeat split.
  exists (emit Init_exiting (emit Init_other_running (born d))).
  unfold __init__. fold (born d). rewrite Hlock. repeat split.
Qed.

(** C10 (a marker with other content), as amended.  When the marker
    exists and what it holds, the white space that [strip()] removes around
    it set aside, is not [processing] (it is empty, or anything else),
    [_check_and_acquire_lock] writes [processing] and a line end into it
    and returns true, and the constructor goes on to the ledger and returns
    the object with the flag set. *)
Theorem other_marker_is_taken readable d content :
  state_file d = Some content ->
  marker_token content <> "processing"%string ->
  fst (_check_and_acquire_lock (born d)) = true /\
  state_file (disk (snd (_check_and_acquire_lock (born d))))
    = Some ("processing" ++ NL)%string /\
  blocks_file (disk (snd (_check_and_acquire_lock (born d)))) = blocks_file d /\
  exists e,
    __init__ readable d = Constructed e /\
    running e = true /\
    state_file (disk e) = Some ("processing" ++ NL)%string.
Proof.
  intros Hfile Htoken.
  assert (Hfree : lock_free d).
  { intros c Hc. rewrite Hfile in Hc. now injection Hc as <-. }
  rewrite (acquire_free (born d) Hfree). repeat split.
  rewrite (init_free readable d Hfree). eexists. split; [reflexivity|].
  unfold _init_blocks_file. cbn [set_state_file born disk blocks_file].
  destruct (blocks_file d) as [ledger|]; [|split; reflexivity].
  destruct readable; [|split; reflexivity].
  destruct (read_last_height ledger) as [[h|]|]; split; reflexivity.
Qed.

(** C6 (the ledger cannot be read at the start).  When opening or reading
    the existing ledger raises, or [int] raises on its last line, the
    constructor does not fail: it logs the error, leaves the ledger as it
    is and returns the object with the flag set.  The cursor it leaves is
    the value assigned at the top of [__init__], which is 1 (not 0). *)
Theorem unreadable_ledger_start readable d content :
  lock_free d ->
  blocks_file d = Some content ->
  readable = false \/ read_last_height content = Some None ->
  exists e,
    __init__ readable d = Constructed e /\
    last_processed_height e = 1 /\
    running e = true /\
    log e = [Error_reading] /\
    blocks_file (disk e) = Some content.
Proof.
  intros Hfree Hfile Herr.
  rewrite (init_free readable d Hfree). eexists. split; [reflexivity|].
  unfold _init_blocks_file. cbn [set_state_file born disk blocks_file].
  rewrite Hfile.
  destruct readable.
  - destruct Herr as [Hr|Hp]; [discriminate|]. rewrite Hp.
    repeat split; cbn; auto.
  - repeat split; cbn; auto.
Qed.

(** A start on a ledger takes the height of its last line for the
    cursor: the cursor of a process is the tail height of the ledger it
    found. *)
Lemma init_reads_tail d k :
  lock_free d ->
  tail_height (blocks_file d) = Some k ->
  exists e,
    __init__ true d = Constructed e /\
    last_processed_height e = k /\
    running e = true /\
    blocks_file (disk e) = blocks_file d.
Proof.
  intros Hfree Htail.
  rewrite (init_free true d Hfree). eexists. split; [reflexivity|].
  unfold _init_blocks_file. cbn [set_state_file born disk blocks_file].
  unfold tail_height in Htail.
  destruct (blocks_file d) as [content|] eqn:Hfile; [|discriminate].
  destruct (read_last_height content) as [[h|]|]; try discriminate.
  injection Htail as ->. cbn. rewrite Hfile. repeat split.
Qed.

End Start.

(** ** Passes one after the other *)

Section Run.

Local Open Scope list_scope.

Lemma extends_refl e : extends e e [].
Proof. unfold extends. cbn. now rewrite app_nil_r. Qed.

Lemma extends_trans e1 e2 e3 evs1 evs2 :
  extends e1 e2 evs1 -> extends e2 e3 evs2 -> extends e1 e3 (evs1 ++ evs2).
Proof.
  intros (Hl1 & Hb1 & Hc1) (Hl2 & Hb2 & Hc2). unfold extends.
  rewrite processed_app, append_all_app, map_app, last_app_default.
  rewrite Hl2, Hl1, Hb2, Hb1, Hc2, Hc1, app_assoc. auto.
Qed.

Lemma in_order_refl e : in_order e e [].
Proof. unfold in_order. cbn. rewrite range_nil by lia. split; [reflexivity | lia]. Qed.

Lemma in_order_trans e1 e2 e3 evs1 evs2 :
  in_order e1 e2 evs1 -> in_order e2 e3 evs2 -> in_order e1 e3 (evs1 ++ evs2).
Proof.
  intros (Hh1 & Hle1) (Hh2 & Hle2). unfold in_order.
  rewrite processed_app, map_app, Hh1, Hh2. split; [|lia].
  symmetry. apply range_app. lia.
Qed.

(** A step that appends nothing. *)
Lemma extends_quiet e e' evs :
  log e' = log e ++ evs -> processed evs = [] -> untouched e e' ->
  extends e e' evs /\ in_order e e' evs.
Proof.
  intros Hl Hp [Hc Hb]. unfold extends, in_order. rewrite Hp, Hc, Hb. cbn.
  rewrite range_nil by lia. repeat split; auto; lia.
Qed.

Lemma from_node_clean tk blocks :
  well_formed tk ->
  Forall (fun b => exists h, node tk (Some h) = Block (fst b) (Some (snd b))) blocks ->
  clean blocks = true.
Proof.
  intros Hwf Hall. unfold clean. apply forallb_forall. intros b Hb.
  rewrite Forall_forall in Hall. destruct (Hall b Hb) as [h Hn].
  destruct (Hwf h) as [_ Hc]. rewrite Hn in Hc. exact Hc.
Qed.

Lemma well_formed_faithful tk : well_formed tk -> faithful tk.
Proof. intros H h. apply H. Qed.

Lemma process_missing_blocks_extends tk current e :
  exists evs,
    extends e (process_missing_blocks tk current e) evs /\
    (faithful tk -> in_order e (process_missing_blocks tk current e) evs) /\
    (well_formed tk -> clean (processed evs) = true).
Proof.
  unfold process_missing_blocks.
  destruct (last_processed_height e <? current) eqn:E.
  - apply Z.ltb_lt in E.
    remember (last_processed_height e + 1) as lo eqn:Hlo.
    destruct (for_heights_trace tk (Py.range lo (current + 1)) e)
      as (evs & Hlog & Hb & Hc & _).
    exists evs. split; [repeat split; assumption|].
    assert (Hf : faithful tk ->
                 in_order e (snd (for_heights tk (Py.range lo (current + 1)) e)) evs /\
                 Forall (fun b => exists h,
                           node tk (Some h) = Block (fst b) (Some (snd b)))
                        (processed evs)).
    { intros Hfaith.
      destruct (for_heights_faithful tk Hfaith (Z.to_nat (current + 1 - lo)) lo e)
        as (evs' & Hlog' & Hh & Hbound & Hall); [lia|].
      replace (lo + Z.of_nat (Z.to_nat (current + 1 - lo))) with (current + 1)
        in * by lia.
      assert (evs' = evs) as -> by (rewrite Hlog in Hlog'; now apply app_inv_head in Hlog').
      split; [|exact Hall]. split; [rewrite <- Hlo; exact Hh | lia]. }
    split.
    + intros Hfaith. now apply Hf.
    + intros Hwf. apply (from_node_clean tk); [exact Hwf|].
      now apply Hf, well_formed_faithful.
  - exists []. split; [apply extends_refl|]. split; [intros; apply in_order_refl | reflexivity].
Qed.

Lemma deliver_quiet s e :
  exists evs, log (deliver s e) = log e ++ evs /\ processed evs = [] /\
              untouched e (deliver s e).
Proof.
  destruct s as [sg|]; cbn [deliver].
  - exists [Shutdown_initiated sg (last_processed_height e)].
    split; [apply handle_shutdown_log|]. split; [reflexivity|].
    apply handle_shutdown_untouched.
  - exists []. rewrite app_nil_r. repeat split.
Qed.

Lemma get_block_quiet answer q e :
  exists evs, log (snd (get_block answer q e)) = log e ++ evs /\
              processed evs = [] /\ untouched e (snd (get_block answer q e)).
Proof.
  unfold get_block. destruct answer as [|bh hash]; cbn [snd].
  - exists [Request q; Error_fetching q]. cbn. rewrite <- app_assoc. repeat split.
  - exists [Request q]. repeat split.
Qed.

(** One pass. *)
Lemma poll_extends tk e :
  exists evs,
    extends e (poll tk e) evs /\
    (faithful tk -> in_order e (poll tk e) evs) /\
    (well_formed tk -> clean (processed evs) = true).
Proof.
  unfold poll.
  destruct (get_block_quiet (node tk None) None e) as (evs1 & Hl1 & Hp1 & Hu1).
  destruct (get_block (node tk None) None e) as [[current_height current_hash] e1].
  cbn [snd] in *.
  destruct (extends_quiet e e1 evs1 Hl1 Hp1 Hu1) as [Hx1 Ho1].
  assert (Hmid : exists e2 evs2,
             match current_height with
             | Some current_height => process_missing_blocks tk current_height e1
             | None => e1
             end = e2 /\
             extends e1 e2 evs2 /\
             (faithful tk -> in_order e1 e2 evs2) /\
             (well_formed tk -> clean (processed evs2) = true)).
  { destruct current_height as [current|].
    - destruct (process_missing_blocks_extends tk current e1) as (evs2 & H2).
      now exists (process_missing_blocks tk current e1), evs2.
    - exists e1, []. split; [reflexivity|]. split; [apply extends_refl|].
      split; [intros; apply in_order_refl | reflexivity]. }
  destruct Hmid as (e2 & evs2 & -> & Hx2 & Ho2 & Hc2).
  destruct (deliver_quiet (signal_after tk) e2) as (evs3 & Hl3 & Hp3 & Hu3).
  destruct (extends_quiet e2 _ evs3 Hl3 Hp3 Hu3) as [Hx3 Ho3].
  exists (evs1 ++ evs2 ++ evs3). split; [|split].
  - eapply extends_trans; [exact Hx1|]. eapply extends_trans; eassumption.
  - intros Hf. eapply in_order_trans; [exact Ho1|].
    eapply in_order_trans; [now apply Ho2 | exact Ho3].
  - intros Hwf. rewrite !processed_app, Hp1, Hp3, app_nil_r. cbn [app].
    now apply Hc2.
Qed.

(** Any number of passes. *)
Lemma poll_loop_extends tks : forall e,
  exists evs,
    extends e (poll_loop tks e) evs /\
    (Forall faithful tks -> in_order e (poll_loop tks e) evs) /\
    (Forall well_formed tks -> clean (processed evs) = true).
Proof.
  induction tks as [|tk rest IH]; intros e.
  - exists []. split; [apply extends_refl|].
    split; [intros; apply in_order_refl | reflexivity].
  - cbn [poll_loop]. destruct (running e).
    + destruct (poll_extends tk e) as (evs1 & Hx1 & Ho1 & Hc1).
      destruct (IH (poll tk e)) as (evs2 & Hx2 & Ho2 & Hc2).
      exists (evs1 ++ evs2). split; [|split].
      * eapply extends_trans; eassumption.
      * intros Hall. inversion Hall; subst.
        eapply in_order_trans; [now apply Ho1 | now apply Ho2].
      * intros Hall. inversion Hall; subst.
        rewrite processed_app, clean_app, Hc1, Hc2; auto.
    + exists []. split; [apply extends_refl|].
      split; [intros; apply in_order_refl | reflexivity].
Qed.

(** The whole of [run]. *)
Lemma run_extends tks e :
  exists evs,
    extends e (run tks e) evs /\
    (Forall faithful tks -> in_order e (run tks e) evs) /\
    (Forall well_formed tks -> clean (processed evs) = true).
Proof.
  unfold run.
  destruct (extends_quiet e (emit Startup e) [Startup]) as [Hx1 Ho1];
    [reflexivity | reflexivity | split; reflexivity |].
  destruct (poll_loop_extends tks (emit Startup e)) as (evs2 & Hx2 & Ho2 & Hc2).
  set (e2 := poll_loop tks (emit Startup e)) in *.
  destruct (running e2).
  - exists ([Startup] ++ evs2). split; [|split].
    + eapply extends_trans; eassumption.
    + intros Hall. eapply in_order_trans; [exact Ho1 | now apply Ho2].
    + intros Hall. now apply Hc2.
  - destruct (extends_quiet e2 (emit (Shutdown_complete (last_processed_height e2)) e2)
                [Shutdown_complete (last_processed_height e2)]) as [Hx3 Ho3];
      [reflexivity | reflexivity | split; reflexivity |].
    exists ([Startup] ++ evs2 ++ [Shutdown_complete (last_processed_height e2)]).
    split; [|split].
    + eapply extends_trans; [exact Hx1|]. eapply extends_trans; eassumption.
    + intros Hall. eapply in_order_trans; [exact Ho1|].
      eapply in_order_trans; [now apply Ho2 | exact Ho3].
    + intros Hall. rewrite !processed_app. cbn [processed app].
      rewrite app_nil_r. now apply Hc2.
Qed.

End Run.

(** ** Properties of the ledger and the cursor over a run *)

Section Invariants.

Local Open Scope list_scope.

Lemma nondecreasing_range n : forall c,
  nondecreasing (c :: Py.range (c + 1) (c + 1 + Z.of_nat n)) = true.
Proof.
  induction n as [|n IH]; intros c.
  - now rewrite range_nil by lia.
  - rewrite range_cons by lia.
    replace (c + 1 + Z.of_nat (S n)) with (c + 1 + 1 + Z.of_nat n) by lia.
    change (nondecreasing (c :: c + 1 :: ?l))
      with ((c <=? c + 1) && nondecreasing (c + 1 :: l)).
    rewrite IH. replace (c <=? c + 1) with true by (symmetry; apply Z.leb_le; lia).
    reflexivity.
Qed.

Lemma gapless_range n : forall lo,
  gapless (map Some (Py.range lo (lo + Z.of_nat n))) = true.
Proof.
  induction n as [|n IH]; intros lo.
  - now rewrite range_nil by lia.
  - rewrite range_cons by lia.
    replace (lo + Z.of_nat (S n)) with (lo + 1 + Z.of_nat n) by lia.
    specialize (IH (lo + 1)).
    destruct n as [|n].
    + now rewrite range_nil by lia.
    + rewrite range_cons in * by lia. cbn [map gapless] in *.
      rewrite Z.eqb_refl. exact IH.
Qed.

(** C4 (a start without a ledger).  Without a ledger file the constructor
    writes the header and leaves the cursor at 1, the value assigned at
    the top of [__init__].  A pass in which nothing goes wrong, with the
    chain at [H], then asks for the heights 2, ..., [H] and leaves the
    header followed by their records: the block of height 1 is never asked
    for and the first record is that of height 2. *)
Theorem fresh_start_skips_height_1 (H : Z) (hash : Z -> string) :
  exists e0,
    __init__ true empty_storage = Constructed e0 /\
    last_processed_height e0 = 1 /\
    blocks_file (disk e0) = Some header /\
    let e := poll (quiet (chain H hash)) e0 in
    blocks_file (disk e)
      = Some (header ++ record_lines (blocks_of hash (Py.range 2 (H + 1))))%string /\
    requested (new_events e0 e) = Py.range 2 (H + 1) /\
    ~ In 1 (requested (new_events e0 e)) /\
    last_processed_height e = Z.max 1 H.
Proof.
  assert (Hfree : lock_free empty_storage) by (intros c Hc; discriminate).
  rewrite (init_free true _ Hfree).
  eexists. split; [reflexivity|]. split; [reflexivity|]. split; [reflexivity|].
  set (e0 := _init_blocks_file true _).
  assert (Hc0 : last_processed_height e0 = 1) by reflexivity.
  assert (Hb0 : blocks_file (disk e0) = Some header) by reflexivity.
  assert (Hr0 : running e0 = true) by reflexivity.
  clearbody e0. cbv zeta.
  unfold poll, get_block. cbn [quiet node chain signal_after deliver].
  set (e1 := emit (Request None) e0).
  assert (Hl1 : log e1 = log e0 ++ [Request None]) by reflexivity.
  assert (Hc1 : last_processed_height e1 = 1) by exact Hc0.
  assert (Hb1 : blocks_file (disk e1) = Some header) by exact Hb0.
  assert (Hr1 : running e1 = true) by exact Hr0.
  clearbody e1.
  destruct (Z_lt_le_dec 1 H) as [Hlt|Hle].
  - rewrite process_missing_blocks_loop by lia. rewrite Hc1. cbn [Z.add Pos.add].
    destruct (for_heights_success (quiet (chain H hash)) hash (Py.range 2 (H + 1)) e1 Hr1)
      as (e2 & Hfor & Hl2 & Hc2 & Hb2 & _).
    { intros h _. repeat split. }
    rewrite Hfor. cbn [snd].
    rewrite (new_events_app e0 e2
               ([Request None] ++ success_events hash (Py.range 2 (H + 1))))
      by (now rewrite Hl2, Hl1, <- app_assoc).
    rewrite requested_app, requested_success. cbn [requested app].
    rewrite Hb2, Hb1, append_all_some, Hc2, last_range by lia.
    repeat split; try lia.
    intros Hin. apply in_range in Hin. lia.
  - unfold process_missing_blocks. rewrite Hc1.
    replace (1 <? H) with false by (symmetry; apply Z.ltb_ge; lia).
    rewrite (new_events_app e0 e1 [Request None] Hl1).
    rewrite range_nil by lia. cbn. rewrite Hb1, Hc1.
    repeat split; auto; lia.
Qed.

Lemma regular_read content c :
  regular content c ->
  read_last_height content = (if c =? 1 then None else Some (Some c)).
Proof.
  intros (blocks & -> & Hclean & Hh & Hc).
  destruct blocks as [|b blocks _] using rev_ind.
  - cbn in Hh. destruct (Z.eqb_spec c 1) as [_|Hne]; [reflexivity|].
    rewrite range_cons in Hh by lia. discriminate.
  - destruct b as [h hash]. rewrite clean_app in Hclean.
    apply andb_prop in Hclean as [Hcl Hone]. cbn in Hone.
    rewrite andb_true_r in Hone.
    rewrite read_last_height_ledger by assumption.
    rewrite map_app in Hh. cbn [map fst] in Hh.
    assert (Hlen : c <> 1).
    { intros ->. rewrite range_nil in Hh by lia. now destruct (map fst blocks). }
    assert (Hlast : last (map fst blocks ++ [h]) 0 = c).
    { rewrite Hh, last_range by lia. lia. }
    rewrite last_last in Hlast. subst h.
    now destruct (Z.eqb_spec c 1).
Qed.

Lemma regular_heights content c :
  regular content c -> gapless (ledger_heights content) = true.
Proof.
  intros (blocks & -> & Hclean & Hh & Hc).
  rewrite ledger_heights_ledger by assumption.
  rewrite <- (map_map fst Some), Hh.
  replace (c + 1) with (2 + Z.of_nat (Z.to_nat (c - 1))) by lia.
  apply gapless_range.
Qed.

Lemma init_in_step d e :
  (forall content, blocks_file d = Some content -> exists c, regular content c) ->
  __init__ true d = Constructed e -> in_step e.
Proof.
  intros Hreg Hinit. unfold __init__ in Hinit. fold (born d) in Hinit.
  unfold _check_and_acquire_lock in Hinit.
  destruct (match state_file (disk (born d)) with
            | Some content => (marker_token content =? "processing")%string
            | None => false
            end); cbn [negb] in Hinit; [discriminate|].
  injection Hinit as <-.
  unfold _init_blocks_file. cbn [set_state_file born disk blocks_file].
  destruct (blocks_file d) as [content|] eqn:Hfile.
  - destruct (Hreg content eq_refl) as [c Hc].
    rewrite (regular_read content c Hc).
    pose proof Hc as (blocks & _ & _ & _ & Hge).
    destruct (Z.eqb_spec c 1) as [->|Hne].
    + exists content. cbn. now rewrite Hfile.
    + exists content. cbn. now rewrite Hfile.
  - exists header. cbn. split; [reflexivity|].
    exists []. repeat split; lia.
Qed.

Lemma run_in_step tks e :
  Forall well_formed tks -> in_step e -> in_step (run tks e).
Proof.
  intros Hall (content & Hfile & blocks & -> & Hclean & Hh & Hge).
  destruct (run_extends tks e) as (evs & (_ & Hb & _) & Ho & Hc).
  destruct Ho as [Hord Hle].
  { eapply Forall_impl; [|exact Hall]. apply well_formed_faithful. }
  specialize (Hc Hall).
  rewrite Hfile, append_all_some in Hb.
  exists (header ++ record_lines (blocks ++ processed evs))%string.
  split; [now rewrite Hb, record_lines_app, append_assoc|].
  exists (blocks ++ processed evs). split; [reflexivity|].
  rewrite clean_app, Hclean, Hc, map_app, Hh, Hord.
  repeat split; [|lia].
  symmetry. apply range_app. lia.
Qed.

Lemma produced_regular d :
  produced well_formed d ->
  forall content, blocks_file d = Some content -> exists c, regular content c.
Proof.
  induction 1 as [marker | d e tks Hd IH Hinit Hall | d Hd IH];
    intros content Hfile.
  - discriminate.
  - pose proof (init_in_step d e IH Hinit) as Hstep.
    destruct (run_in_step tks e Hall Hstep) as (content' & Hfile' & Hreg).
    rewrite Hfile in Hfile'. injection Hfile' as <-. eauto.
  - apply IH. exact Hfile.
Qed.

(** C2 (ordering), as amended.  Start where no ledger exists and let
    processes be started and ended any number of times, one at a time, each
    making any number of passes under failing fetches, failing appends and
    signals;
    let every block the node returns for a height carry that height and a
    hash that is one line of text, and let every start read the ledger
    without an error.  Then in every ledger brought about, each record
    after the header is one above the record before it. *)
Theorem produced_ledger_gapless d content :
  produced well_formed d ->
  blocks_file d = Some content ->
  gapless (ledger_heights content) = true.
Proof.
  intros Hd Hfile.
  destruct (produced_regular d Hd content Hfile) as [c Hc].
  exact (regular_heights content c Hc).
Qed.

(** C5 (the cursor), as amended.  An append that goes through sets the
    cursor to the height it has written, one that does not leaves it;
    fetching a block, handling a signal and logging leave it.  So over any
    number of passes the values the cursor takes are the heights of the
    blocks processed, in order, and it ends at the last of them.  When
    every block the node returns for a height carries that height, these
    values never go down. *)
Theorem cursor_follows_appends tks e :
  Forall faithful tks ->
  (forall ok h hash e0,
     fst (append_block ok h hash e0) = ok /\
     last_processed_height (snd (append_block ok h hash e0))
       = (if ok then h else last_processed_height e0)) /\
  (forall answer q e0,
     last_processed_height (snd (get_block answer q e0))
       = last_processed_height e0) /\
  (forall sg e0,
     last_processed_height (handle_shutdown sg e0) = last_processed_height e0) /\
  (forall ev e0, last_processed_height (emit ev e0) = last_processed_height e0) /\
  let e' := run tks e in
  let heights := map fst (processed (new_events e e')) in
  last_processed_height e' = last heights (last_processed_height e) /\
  nondecreasing (last_processed_height e :: heights) = true /\
  last_processed_height e <= last_processed_height e'.
Proof.
  intros Hall.
  split; [intros [|] h hash e0; split; reflexivity|].
  split; [intros [|bh hash] q e0; reflexivity|].
  split; [intros sg e0; apply handle_shutdown_untouched|].
  split; [reflexivity|].
  cbv zeta.
  destruct (run_extends tks e) as (evs & (Hlog & _ & Hc) & Ho & _).
  destruct (Ho Hall) as [Hord Hle].
  rewrite (new_events_app _ _ _ Hlog).
  split; [exact Hc|]. split; [|exact Hle].
  rewrite Hord.
  replace (last_processed_height (run tks e) + 1)
    with (last_processed_height e + 1
          + Z.of_nat (Z.to_nat (last_processed_height (run tks e)
                                - last_processed_height e))) by lia.
  apply nondecreasing_range.
Qed.

End Invariants.

(** ** Concrete runs *)

Section Runs.

Local Open Scope list_scope.

Lemma tag_one_line h : one_line (tag h) = true.
Proof.
  unfold tag, one_line. rewrite all_chars_app. cbn [all_chars].
  fold (one_line (Py.str h)). now rewrite str_one_line.
Qed.

Lemma chain_well_formed head : well_formed (quiet (chain head tag)).
Proof.
  intros h. cbn. rewrite Z.eqb_refl. split; [reflexivity | apply tag_one_line].
Qed.

Lemma chain_faithful head : faithful (quiet (chain head tag)).
Proof. apply well_formed_faithful, chain_well_formed. Qed.

Example resume_run :
  blocks_file (disk (process_missing_blocks (quiet (chain 12 tag)) 12 resumed))
  = Some ("height,hash" ++ NL ++ "7,H7" ++ NL ++ "8,H8" ++ NL ++ "9,H9" ++ NL
          ++ "10,H10" ++ NL ++ "11,H11" ++ NL ++ "12,H12" ++ NL)%string.
Proof. reflexivity. Qed.

Example outage_run :
  let e := process_missing_blocks (quiet (outage 10 12)) 12 resumed in
  last_processed_height e = 9 /\
  requested (log e) = [8; 9; 10] /\
  log e = [Request (Some 8); Block_processed 8 "H8";
           Request (Some 9); Block_processed 9 "H9";
           Request (Some 10); Error_fetching (Some 10)].
Proof. repeat split. Qed.

Example interrupted_run :
  let e := process_missing_blocks (interrupted 10 57) 57 resumed in
  last_processed_height e = 9 /\
  running e = false /\
  state_file (disk e) = None /\
  tail_height (blocks_file (disk e)) = Some 9 /\
  requested (log e) = [8; 9].
Proof. repeat split. Qed.

Example fresh_start_run :
  exists e0,
    __init__ true empty_storage = Constructed e0 /\
    blocks_file (disk (poll (quiet (chain 3 tag)) e0))
      = Some ("height,hash" ++ NL ++ "2,H2" ++ NL ++ "3,H3" ++ NL)%string /\
    requested (log (poll (quiet (chain 3 tag)) e0)) = [2; 3] /\
    blocks_file (disk (poll (quiet (chain 1 tag)) e0))
      = Some ("height,hash" ++ NL)%string.
Proof. eexists. repeat split. Qed.

Example restart_after_interrupt :
  let d := disk (process_missing_blocks (interrupted 10 57) 57 resumed) in
  exists e, __init__ true d = Constructed e /\ last_processed_height e = 9.
Proof. eexists. split; reflexivity. Qed.

(** The claim C2 as it stands fails: a storage the program brings about
    from nothing, with a node that answers the request for height 2 with
    the block of height 5, holds the records of 5 and then of 3. *)
Lemma ledger_with_gap :
  exists d content,
    produced (fun _ => True) d /\
    blocks_file d = Some content /\
    ledger_heights content = [Some 5; Some 3] /\
    gapless (ledger_heights content) = false.
Proof.
  exists (disk (run [quiet confused]
                  (_init_blocks_file true
                     (set_state_file (Some ("processing" ++ NL)%string)
                        (born empty_storage))))).
  eexists. split; [|split; [reflexivity | split; reflexivity]].
  eapply produced_process.
  - apply (produced_fresh _ None).
  - reflexivity.
  - repeat constructor.
Qed.

(** The claim C3 as it stands fails: the process resumed at 7 is answered
    with the block of height 20 on its request for height 8, and the
    request for height 9 raises.  The pass ends at 9, with the record of
    height 20 in the ledger and the tail at 20, not at 8.  It fails as well
    when the cursor is not the tail of the ledger: after a start that could
    not read a ledger ending at 5 the request for height 2 raises, and the
    tail is 5, not 1.  And it fails when the ledger does not end in a line
    end: the record of height 8 goes onto the line of height 7, the
    request for height 9 raises, and the tail is 7, not 8.  And it fails
    when a hash holds a line end: the last line of the ledger is then the
    rest of the hash of height 8, with no height on it. *)
Lemma halt_leaves_other_tail :
  (let e' := process_missing_blocks (quiet misplaced) 12 resumed in
   fails_at (quiet misplaced) 9 = true /\
   new_events resumed e'
     = [Request (Some 8); Block_processed 20 "x";
        Request (Some 9); Error_fetching (Some 9)] /\
   last_processed_height e' = 20 /\
   tail_height (blocks_file (disk e')) = Some 20 /\
   last_processed_height e' <> 9 - 1) /\
  (exists e,
     __init__ false storage_at_5 = Constructed e /\
     let e' := process_missing_blocks (quiet (outage 2 12)) 12 e in
     fails_at (quiet (outage 2 12)) 2 = true /\
     new_events e e' = [Request (Some 2); Error_fetching (Some 2)] /\
     blocks_file (disk e') = blocks_file storage_at_5 /\
     tail_height (blocks_file (disk e')) = Some 5 /\
     Some 5 <> Some (2 - 1)) /\
  (let e := set_blocks_file (Some ("height,hash" ++ NL ++ "7,H7")%string) resumed in
   let e' := process_missing_blocks (quiet (outage 9 12)) 12 e in
   fails_at (quiet (outage 9 12)) 9 = true /\
   tail_height (blocks_file (disk e)) = Some (last_processed_height e) /\
   new_events e e'
     = [Request (Some 8); Block_processed 8 "H8";
        Request (Some 9); Error_fetching (Some 9)] /\
   blocks_file (disk e') = Some ("height,hash" ++ NL ++ "7,H78,H8" ++ NL)%string /\
   tail_height (blocks_file (disk e')) = Some 7 /\
   Some 7 <> Some (9 - 1)) /\
  (let two_lines q :=
     match q with
     | Some 8 => Block 8 (Some ("a" ++ NL ++ "b")%string)
     | _ => Raised
     end in
   let e' := process_missing_blocks (quiet two_lines) 12 resumed in
   fails_at (quiet two_lines) 9 = true /\
   last_processed_height e' = 8 /\
   blocks_file (disk e')
     = Some ("height,hash" ++ NL ++ "7,H7" ++ NL ++ "8,a" ++ NL ++ "b" ++ NL)%string /\
   tail_height (blocks_file (disk e')) = None /\
   start_cursor (blocks_file (disk e')) = 1).
Proof.
  split; [|split; [|split]].
  - repeat split. discriminate.
  - eexists. split; [reflexivity|]. repeat split. discriminate.
  - repeat split. discriminate.
  - repeat split.
Qed.

(** The claim C10 as it stands fails: a marker that holds [processing] and
    a line end, which is what the program itself writes, holds something
    other than [processing], and so does one with a no-break space before
    the word; the lock is held all the same, nothing is written and the
    constructor ends in [sys.exit(0)]. *)
Lemma marker_with_line_end_is_held :
  let nbsp := String (ascii_of_nat 160) EmptyString in
  let held content :=
    let d := {| state_file := Some content; blocks_file := None |} in
    content <> "processing"%string /\
    fst (_check_and_acquire_lock (born d)) = false /\
    disk (snd (_check_and_acquire_lock (born d))) = d /\
    exists e, __init__ true d = SysExit 0 e /\ disk e = d in
  held ("processing" ++ NL)%string /\ held (nbsp ++ "processing")%string.
Proof.
  split; (split; [discriminate|]); repeat split; eexists; split; reflexivity.
Qed.

(** The claim C5 as it stands fails: a process that has read a ledger
    ending at height 5 and is answered with the block of height 3 sets the
    cursor to 3; the values the cursor takes in the run are 5, 3. *)
Lemma cursor_goes_down :
  exists e,
    __init__ true storage_at_5 = Constructed e /\
    last_processed_height e = 5 /\
    last_processed_height (run [quiet stuck] e) = 3 /\
    last_processed_height e
      :: map fst (processed (new_events e (run [quiet stuck] e))) = [5; 3] /\
    nondecreasing
      (last_processed_height e
         :: map fst (processed (new_events e (run [quiet stuck] e)))) = false.
Proof. eexists. repeat split. Qed.

(** [resume_five_blocks] for the process resumed at 7 and the chain at 12. *)
Lemma resume_five_blocks_witness :
  let e' := process_missing_blocks (quiet (chain 12 tag)) (7 + 5) resumed in
  last_processed_height e' = 7 + 5 /\
  blocks_file (disk e')
    = append_all (blocks_of tag (Py.range (7 + 1) (7 + 6)))
                 (blocks_file (disk resumed)) /\
  Py.range (7 + 1) (7 + 6) = [7 + 1; 7 + 2; 7 + 3; 7 + 4; 7 + 5] /\
  new_events resumed e' = success_events tag (Py.range (7 + 1) (7 + 6)) /\
  (one_line (tag (7 + 5)) = true ->
   tail_height (blocks_file (disk e')) = Some (7 + 5)).
Proof.
  apply (resume_five_blocks (quiet (chain 12 tag)) tag resumed 7).
  - reflexivity.
  - reflexivity.
  - intros h _. repeat split.
Defined.

(** [halt_at_failure] for the process resumed at 7, the chain at 12 and the
    request for height 10 raising. *)
Lemma halt_at_failure_witness :
  let e' := process_missing_blocks (quiet (outage 10 12)) 12 resumed in
  let before := Py.range (last_processed_height resumed + 1) 10 in
  start_cursor (blocks_file (disk e')) = 10 - 1 /\
  (tail_height (blocks_file (disk resumed)) = Some (last_processed_height resumed) \/
   last_processed_height resumed + 1 < 10 ->
   tail_height (blocks_file (disk e')) = Some (10 - 1)) /\
  last_processed_height e' = 10 - 1 /\
  blocks_file (disk e')
    = append_all (blocks_of tag before) (blocks_file (disk resumed)) /\
  processed (new_events resumed e') = blocks_of tag before /\
  requested (new_events resumed e') = before ++ [10].
Proof.
  apply (halt_at_failure (quiet (outage 10 12)) tag resumed 12 10
           ("height,hash" ++ NL ++ "7,H7")%string).
  - reflexivity.
  - simpl. lia.
  - reflexivity.
  - reflexivity.
  - intros j Hj. simpl in Hj. simpl.
    replace (j =? 10) with false by (symmetry; apply Z.eqb_neq; lia).
    repeat split. apply tag_one_line.
  - reflexivity.
  - reflexivity.
Defined.

(** [shutdown_stops_backfill] for the process resumed at 7, the chain at 57
    and a termination signal before the iteration for 10. *)
Lemma shutdown_stops_backfill_witness :
  let e' := process_missing_blocks (interrupted 10 57) 57 resumed in
  let below := process_missing_blocks (interrupted 10 57) (10 - 1) resumed in
  (forall j, In j (requested (new_events resumed e')) -> j < 10) /\
  blocks_file (disk e') = blocks_file (disk below) /\
  last_processed_height e' = last_processed_height below /\
  blocks_file (disk e')
    = append_all (processed (new_events resumed e')) (blocks_file (disk resumed)) /\
  last_processed_height e'
    = last (map fst (processed (new_events resumed e')))
           (last_processed_height resumed).
Proof.
  apply (shutdown_stops_backfill (interrupted 10 57) resumed 57 10).
  - simpl. lia.
  - right. simpl. discriminate.
Defined.

(** [idle_pass] for the process resumed at 7 and a node that reports the
    head 5. *)
Lemma idle_pass_witness :
  process_missing_blocks (quiet (chain 5 tag)) 5 resumed = resumed /\
  poll (quiet (chain 5 tag)) resumed
    = deliver (signal_after (quiet (chain 5 tag))) (emit (Request None) resumed) /\
  last_processed_height (poll (quiet (chain 5 tag)) resumed)
    = last_processed_height resumed /\
  blocks_file (disk (poll (quiet (chain 5 tag)) resumed))
    = blocks_file (disk resumed) /\
  requested (new_events resumed (poll (quiet (chain 5 tag)) resumed)) = [] /\
  processed (new_events resumed (poll (quiet (chain 5 tag)) resumed)) = [].
Proof.
  apply (idle_pass (quiet (chain 5 tag)) resumed 5 (Some (tag 5))).
  - reflexivity.
  - simpl. lia.
Defined.

(** [held_lock_exits] for a marker that holds [processing]. *)
Lemma held_lock_exits_witness :
  let d := {| state_file := Some "processing"%string;
              blocks_file := blocks_file (disk resumed) |} in
  fst (_check_and_acquire_lock (born d)) = false /\
  disk (snd (_check_and_acquire_lock (born d))) = d /\
  exists e,
    __init__ true d = SysExit 0 e /\
    disk e = d /\
    log e = [Init_other_running; Init_exiting].
Proof.
  apply (held_lock_exits true
           {| state_file := Some "processing"%string;
              blocks_file := blocks_file (disk resumed) |}
           "processing"%string).
  - reflexivity.
  - reflexivity.
Defined.

(** [other_marker_is_taken] for a marker that holds [stopped]. *)
Lemma other_marker_is_taken_witness :
  let d := {| state_file := Some "stopped"%string; blocks_file := None |} in
  fst (_check_and_acquire_lock (born d)) = true /\
  state_file (disk (snd (_check_and_acquire_lock (born d))))
    = Some ("processing" ++ NL)%string /\
  blocks_file (disk (snd (_check_and_acquire_lock (born d)))) = blocks_file d /\
  exists e,
    __init__ true d = Constructed e /\
    running e = true /\
    state_file (disk e) = Some ("processing" ++ NL)%string.
Proof.
  apply (other_marker_is_taken true
           {| state_file := Some "stopped"%string; blocks_file := None |}
           "stopped"%string).
  - reflexivity.
  - vm_compute. discriminate.
Defined.

(** [unreadable_ledger_start] for a ledger whose last line is [abc]. *)
Lemma unreadable_ledger_start_witness :
  let d := {| state_file := None;
              blocks_file := Some (header ++ "abc" ++ NL)%string |} in
  exists e,
    __init__ true d = Constructed e /\
    last_processed_height e = 1 /\
    running e = true /\
    log e = [Error_reading] /\
    blocks_file (disk e) = Some (header ++ "abc" ++ NL)%string.
Proof.
  apply (unreadable_ledger_start true
           {| state_file := None;
              blocks_file := Some (header ++ "abc" ++ NL)%string |}
           (header ++ "abc" ++ NL)%string).
  - intros c Hc. simpl in Hc. discriminate.
  - reflexivity.
  - right. reflexivity.
Defined.

(** [produced_ledger_gapless] for the ledger after a fresh start and two
    passes, the chain at 3 and then at 4. *)
Lemma produced_ledger_gapless_witness :
  gapless (ledger_heights
             ("height,hash" ++ NL ++ "2,H2" ++ NL ++ "3,H3" ++ NL
              ++ "4,H4" ++ NL)%string) = true.
Proof.
  apply (produced_ledger_gapless
           (disk (run [quiet (chain 3 tag); quiet (chain 4 tag)]
                    (_init_blocks_file true
                       (set_state_file (Some ("processing" ++ NL)%string)
                          (born empty_storage)))))).
  - eapply produced_process.
    + apply (produced_fresh _ None).
    + reflexivity.
    + repeat constructor; apply chain_well_formed.
  - reflexivity.
Defined.

(** [cursor_follows_appends] for two passes of the process resumed at 7, the
    second with the request for height 11 raising. *)
Lemma cursor_follows_appends_witness :
  let tks := [quiet (chain 9 tag); quiet (outage 11 12)] in
  let e' := run tks resumed in
  let heights := map fst (processed (new_events resumed e')) in
  last_processed_height e' = last heights (last_processed_height resumed) /\
  nondecreasing (last_processed_height resumed :: heights) = true /\
  last_processed_height resumed <= last_processed_height e'.
Proof.
  apply (cursor_follows_appends [quiet (chain 9 tag); quiet (outage 11 12)] resumed).
  repeat constructor.
  - apply chain_faithful.
  - intros h. simpl. destruct (h =? 11); simpl; [reflexivity | apply Z.eqb_refl].
Defined.

End Runs.

(** ** Further properties: the flag and the marker *)

Section Marker.

Local Open Scope list_scope.

Lemma fate_refl e : fate e e.
Proof. left. split; reflexivity. Qed.

Lemma fate_trans e1 e2 e3 : fate e1 e2 -> fate e2 e3 -> fate e1 e3.
Proof.
  intros [[Hr1 Hs1]|[Hr1 Hs1]] [[Hr2 Hs2]|[Hr2 Hs2]].
  - left. split; congruence.
  - right. split; assumption.
  - right. split; congruence.
  - right. split; assumption.
Qed.

Lemma handle_shutdown_fate sg e : fate e (handle_shutdown sg e).
Proof.
  right. unfold handle_shutdown. cbn.
  destruct (state_file (disk e)) eqn:E; cbn; auto.
Qed.

Lemma deliver_fate s e : fate e (deliver s e).
Proof.
  destruct s as [sg|]; [apply handle_shutdown_fate | apply fate_refl].
Qed.

Lemma iteration_fate tk h e : fate e (snd (iteration tk h e)).
Proof.
  unfold iteration.
  apply fate_trans with (e2 := deliver (signal_before tk h) e);
    [apply deliver_fate|].
  set (e1 := deliver (signal_before tk h) e).
  destruct (running e1); cbn [negb]; [|left; split; reflexivity].
  unfold get_block, append_block.
  destruct (node tk (Some h)) as [|bh [hash|]]; try (left; split; reflexivity).
  destruct (writable tk h); left; split; reflexivity.
Qed.

Lemma for_heights_fate tk hs : forall e, fate e (snd (for_heights tk hs e)).
Proof.
  induction hs as [|h rest IH]; intros e; [apply fate_refl|].
  cbn [for_heights].
  pose proof (iteration_fate tk h e) as H1.
  destruct (iteration tk h e) as [[|] e1]; cbn [snd] in *.
  - eapply fate_trans; [exact H1 | apply IH].
  - exact H1.
Qed.

Lemma process_missing_blocks_fate tk current e :
  fate e (process_missing_blocks tk current e).
Proof.
  unfold process_missing_blocks.
  destruct (last_processed_height e <? current);
    [apply for_heights_fate | apply fate_refl].
Qed.

Lemma poll_fate tk e : fate e (poll tk e).
Proof.
  unfold poll, get_block.
  destruct (node tk None) as [|H hh];
    (eapply fate_trans; [|apply deliver_fate]).
  - left; split; reflexivity.
  - eapply fate_trans; [|apply process_missing_blocks_fate].
    left; split; reflexivity.
Qed.

Lemma poll_loop_fate tks : forall e, fate e (poll_loop tks e).
Proof.
  induction tks as [|tk rest IH]; intros e; [apply fate_refl|].
  cbn [poll_loop]. destruct (running e); [|apply fate_refl].
  eapply fate_trans; [apply poll_fate | apply IH].
Qed.

Lemma run_fate tks e : fate e (run tks e).
Proof.
  unfold run.
  apply fate_trans with (e2 := emit Startup e); [left; split; reflexivity|].
  eapply fate_trans; [apply (poll_loop_fate tks (emit Startup e))|].
  destruct (running (poll_loop tks (emit Startup e))); left; split; reflexivity.
Qed.

(** X1 (graceful shutdown releases the lock).  A run that begins with the
    flag set and ends with it cleared has removed the marker, the last
    record of its log is the one of the completed shutdown with the final
    cursor, and a start on the storage it leaves acquires the lock
    again. *)
Theorem stopped_run_releases_marker tks e :
  running e = true ->
  running (run tks e) = false ->
  state_file (disk (run tks e)) = None /\
  last (log (run tks e)) Startup
    = Shutdown_complete (last_processed_height (run tks e)) /\
  exists e2, __init__ true (disk (run tks e)) = Constructed e2.
Proof.
  intros Hrun Hstop.
  assert (Hnone : state_file (disk (run tks e)) = None).
  { destruct (run_fate tks e) as [[Hr _]|[_ Hs]]; [congruence | exact Hs]. }
  split; [exact Hnone|]. split.
  - unfold run in *.
    destruct (running (poll_loop tks (emit Startup e))) eqn:E; [congruence|].
    cbn. apply last_last.
  - rewrite init_free; [eexists; reflexivity|].
    intros c Hc. congruence.
Qed.

(** X2 (a marker left behind).  While the flag of a process is set (it has
    handled no signal), the marker it wrote at its start is in place: a
    start on its storage, be it of a second instance or after the process
    was killed, logs that another processor is running and ends in
    [sys.exit(0)], leaving marker and ledger as they are. *)
Theorem live_marker_blocks_start readable d e tks readable2 :
  __init__ readable d = Constructed e ->
  running (run tks e) = true ->
  state_file (disk (run tks e)) = Some ("processing" ++ NL)%string /\
  exists e2,
    __init__ readable2 (disk (run tks e)) = SysExit 0 e2 /\
    disk e2 = disk (run tks e) /\
    log e2 = [Init_other_running; Init_exiting].
Proof.
  intros Hinit Hrun.
  assert (Hstate : state_file (disk e) = Some ("processing" ++ NL)%string).
  { unfold __init__ in Hinit. fold (born d) in Hinit.
    unfold _check_and_acquire_lock in Hinit.
    destruct (match state_file (disk (born d)) with
              | Some content => (marker_token content =? "processing")%string
              | None => false
              end); cbn [negb] in Hinit; [discriminate|].
    injection Hinit as <-.
    unfold _init_blocks_file. cbn [set_state_file born disk blocks_file].
    destruct (blocks_file d) as [content|]; [|reflexivity].
    destruct readable; [|reflexivity].
    destruct (read_last_height content) as [[h|]|]; reflexivity. }
  assert (Hkept : state_file (disk (run tks e)) = Some ("processing" ++ NL)%string).
  { destruct (run_fate tks e) as [[_ Hs]|[Hr _]]; congruence. }
  split; [exact Hkept|].
  assert (Hlock : _check_and_acquire_lock (born (disk (run tks e)))
                  = (false, emit Init_other_running (born (disk (run tks e))))).
  { unfold _check_and_acquire_lock. cbn [born disk]. rewrite Hkept. reflexivity. }
  exists (emit Init_exiting (emit Init_other_running (born (disk (run tks e))))).
  unfold __init__. fold (born (disk (run tks e))). rewrite Hlock. repeat split.
Qed.

End Marker.

(** ** Further properties: passes under any environment *)

Section AnyPass.

Local Open Scope list_scope.

Lemma attempts_heights evs : map fst (attempts evs) = requested evs.
Proof.
  induction evs as [|ev evs IH]; [reflexivity|].
  destruct ev as [| | | | | | |[h|]| | | | |]; cbn; now rewrite ?IH.
Qed.

Lemma appended_next_none evs : processed evs = [] -> appended_next evs = None.
Proof.
  induction evs as [|ev evs IH]; [reflexivity|].
  destruct ev as [| | | | | | |[h|]| | | | |]; cbn; auto; discriminate.
Qed.

Lemma attempts_none evs :
  processed evs = [] ->
  attempts evs = map (fun h => (h, None)) (requested evs).
Proof.
  induction evs as [|ev evs IH]; [reflexivity|].
  destruct ev as [| | | | | | |[h|]| | | | |]; cbn; auto; try discriminate.
  intros H. now rewrite (appended_next_none evs H), (IH H).
Qed.

Lemma for_heights_attempts tk : forall n lo e,
  exists evs m,
    log (snd (for_heights tk (Py.range lo (lo + Z.of_nat n)) e)) = log e ++ evs /\
    requested evs = Py.range lo m /\
    lo <= m <= lo + Z.of_nat n /\
    only_last_may_fail (attempts evs) = true /\
    processed evs = appended_of (attempts evs) /\
    (forall h b, In (h, Some b) (attempts evs) ->
       node tk (Some h) = Block (fst b) (Some (snd b)) /\ writable tk h = true) /\
    (forall h, In (h, None) (attempts evs) ->
       running e = true /\ fails_at tk h = true).
Proof.
  induction n as [|n IH]; intros lo e.
  - rewrite range_nil by lia. exists [], lo. cbn. rewrite app_nil_r.
    rewrite range_nil by lia. repeat split; auto; try lia; intros; contradiction.
  - rewrite (range_cons lo) by lia.
    replace (lo + Z.of_nat (S n)) with (lo + 1 + Z.of_nat n) by lia.
    cbn [for_heights].
    destruct (iteration_effect tk lo e) as (evs1 & Hlog1 & Heff).
    destruct (iteration tk lo e) as [fl e1]. cbn [fst snd] in *.
    inversion Heff as [e' evs _ Hreq Hproc _ _
                      |e' evs Hrun _ Hwhy Hreq Hproc _ _
                      |e' bh hash Hrun _ Hnode Hw _ _ Hrun1];
      subst fl evs1.
    + exists evs, lo. cbn [snd].
      rewrite (attempts_none evs Hproc), Hreq, Hproc, range_nil by lia.
      cbn. repeat split; auto; try lia; intros; contradiction.
    + exists evs, (lo + 1). cbn [snd].
      rewrite (attempts_none evs Hproc), Hreq, Hproc.
      rewrite (range_cons lo) by lia. rewrite range_nil by lia.
      cbn. split; [exact Hlog1|]. split; [reflexivity|]. split; [lia|].
      split; [reflexivity|]. split; [reflexivity|]. split.
      * intros h b [H|[]]. discriminate H.
      * intros h [H|[]]. injection H as <-. split; [exact Hrun|].
        unfold fails_at. destruct (node tk (Some lo)) as [|bh [hash|]]; auto.
        now rewrite (Hwhy bh hash eq_refl).
    + destruct (IH (lo + 1) e1)
        as (evs2 & m & Hlog2 & Hreq2 & Hm & Hlast & Hproc2 & Hsome & Hnone).
      exists ([Request (Some lo); Block_processed bh hash] ++ evs2), m.
      rewrite Hlog2, Hlog1, <- app_assoc.
      change (requested ([Request (Some lo); Block_processed bh hash] ++ evs2))
        with (lo :: requested evs2).
      change (processed ([Request (Some lo); Block_processed bh hash] ++ evs2))
        with ((bh, hash) :: processed evs2).
      change (attempts ([Request (Some lo); Block_processed bh hash] ++ evs2))
        with ((lo, Some (bh, hash)) :: attempts evs2).
      rewrite Hreq2.
      split; [reflexivity|]. split; [symmetry; apply range_cons; lia|].
      split; [lia|]. split; [|split; [|split]].
      * cbn [only_last_may_fail]. destruct (attempts evs2); [reflexivity | exact Hlast].
      * cbn. now rewrite Hproc2.
      * intros h b [H|H]; [|now apply Hsome].
        injection H as <- <-. split; assumption.
      * intros h [H|H]; [discriminate H|].
        split; [exact Hrun|]. now apply Hnone.
Qed.

(** X4 (no height is skipped).  Whatever the node answers, whether writes
    go through and whenever signals come: the heights a call of
    [process_missing_blocks] asks for are the heights after the cursor it
    found, one after the other without a gap and not beyond the head; every
    request but possibly the last is followed by the append of the block
    the node answered with, before the next request is made; a request
    that is not followed by an append is the last one, and the fetch or the
    append failed on it; and the ledger grows by the records of these
    appends and by nothing else. *)
Theorem requests_in_sequence tk current e :
  let e' := process_missing_blocks tk current e in
  let evs := new_events e e' in
  exists m,
    requested evs = Py.range (last_processed_height e + 1) m /\
    last_processed_height e + 1 <= m <= Z.max (last_processed_height e + 1) (current + 1) /\
    map fst (attempts evs) = requested evs /\
    only_last_may_fail (attempts evs) = true /\
    (forall h b, In (h, Some b) (attempts evs) ->
       node tk (Some h) = Block (fst b) (Some (snd b)) /\ writable tk h = true) /\
    (forall h, In (h, None) (attempts evs) -> fails_at tk h = true) /\
    processed evs = appended_of (attempts evs) /\
    blocks_file (disk e') = append_all (processed evs) (blocks_file (disk e)).
Proof.
  cbv zeta.
  assert (Hledger : blocks_file (disk (process_missing_blocks tk current e))
                    = append_all
                        (processed (new_events e (process_missing_blocks tk current e)))
                        (blocks_file (disk e))).
  { destruct (process_missing_blocks_extends tk current e) as (evs & (Hlog & Hb & _) & _).
    now rewrite (new_events_app _ _ _ Hlog). }
  revert Hledger. unfold process_missing_blocks.
  destruct (last_processed_height e <? current) eqn:E; intros Hledger.
  - apply Z.ltb_lt in E.
    remember (last_processed_height e + 1) as lo eqn:Hlo.
    destruct (for_heights_attempts tk (Z.to_nat (current + 1 - lo)) lo e)
      as (evs & m & Hlog & Hreq & Hm & Hlast & Hproc & Hsome & Hnone).
    replace (lo + Z.of_nat (Z.to_nat (current + 1 - lo))) with (current + 1)
      in * by lia.
    exists m. rewrite (new_events_app _ _ _ Hlog) in *.
    split; [exact Hreq|]. split; [lia|]. split; [apply attempts_heights|].
    split; [exact Hlast|]. split; [exact Hsome|].
    split; [intros h Hin; now apply Hnone|]. split; [exact Hproc | exact Hledger].
  - apply Z.ltb_ge in E. exists (last_processed_height e + 1).
    rewrite (new_events_app e e []) in * by (now rewrite app_nil_r).
    rewrite range_nil by lia. cbn.
    repeat split; auto; try lia; intros; contradiction.
Qed.

(** The attempts of the pass in which the request for height 10 raises;
    a log in which a height is skipped after a failure is not of this
    form. *)
Example attempts_ex :
  attempts (new_events resumed
              (process_missing_blocks (quiet (outage 10 12)) 12 resumed))
  = [(8, Some (8, "H8"%string)); (9, Some (9, "H9"%string)); (10, None)] /\
  only_last_may_fail
    (attempts [Request (Some 8); Error_fetching (Some 8);
               Request (Some 9); Block_processed 9 "H9"]) = false.
Proof. split; reflexivity. Qed.

(** X5 (append only).  Whatever happens in a run, the ledger it found is
    the beginning of the ledger it leaves, and what follows are the records
    of the blocks it reports as processed, in the order of the reports. *)
Theorem run_only_appends tks e ledger :
  blocks_file (disk e) = Some ledger ->
  blocks_file (disk (run tks e))
  = Some (ledger ++ record_lines (processed (new_events e (run tks e))))%string.
Proof.
  intros Hfile.
  destruct (run_extends tks e) as (evs & (Hlog & Hb & _) & _).
  rewrite (new_events_app _ _ _ Hlog), Hb, Hfile. apply append_all_some.
Qed.

Lemma deliver_requests s e :
  exists evs, log (deliver s e) = log e ++ evs /\ requested evs = [] /\
              processed evs = [] /\ untouched e (deliver s e).
Proof.
  destruct s as [sg|]; cbn [deliver].
  - exists [Shutdown_initiated sg (last_processed_height e)].
    split; [apply handle_shutdown_log|]. repeat split;
      apply handle_shutdown_untouched.
  - exists []. rewrite app_nil_r. repeat split.
Qed.

(** X6 (catching up in one pass).  When the flag is set, the node reports
    the head [H] and every height from the cursor to [H] is fetched, the
    node answering with the block of that height, and appended, the pass
    ends with the cursor at [H] (or where it was, if [H] is not above it)
    and the ledger grown by the records of all these heights in order,
    however large the gap. *)
Theorem pass_catches_up tk (hash : Z -> string) e H head_hash :
  running e = true ->
  node tk None = Block H head_hash ->
  serves tk hash (last_processed_height e) H ->
  let e' := poll tk e in
  let missing := Py.range (last_processed_height e + 1) (H + 1) in
  last_processed_height e' = Z.max (last_processed_height e) H /\
  blocks_file (disk e') = append_all (blocks_of hash missing) (blocks_file (disk e)) /\
  requested (new_events e e') = missing /\
  processed (new_events e e') = blocks_of hash missing.
Proof.
  intros Hrun Hnode Hserve. cbv zeta.
  unfold poll, get_block. rewrite Hnode.
  set (e1 := emit (Request None) e).
  assert (Hl1 : log e1 = log e ++ [Request None]) by reflexivity.
  assert (Hc1 : last_processed_height e1 = last_processed_height e) by reflexivity.
  assert (Hb1 : blocks_file (disk e1) = blocks_file (disk e)) by reflexivity.
  assert (Hr1 : running e1 = true) by exact Hrun.
  clearbody e1.
  assert (Hmid : exists e2,
             process_missing_blocks tk H e1 = e2 /\
             log e2 = log e1 ++ success_events hash
                        (Py.range (last_processed_height e + 1) (H + 1)) /\
             last_processed_height e2 = Z.max (last_processed_height e) H /\
             blocks_file (disk e2)
               = append_all (blocks_of hash
                               (Py.range (last_processed_height e + 1) (H + 1)))
                            (blocks_file (disk e))).
  { destruct (Z_lt_le_dec (last_processed_height e) H) as [Hlt|Hle].
    - rewrite process_missing_blocks_loop by lia. rewrite Hc1.
      destruct (for_heights_success tk hash
                  (Py.range (last_processed_height e + 1) (H + 1)) e1 Hr1)
        as (e2 & Hfor & Hl2 & Hc2 & Hb2 & _).
      { intros h Hh. apply in_range in Hh. apply Hserve. lia. }
      exists e2. rewrite Hfor. cbn [snd]. repeat split; auto.
      + rewrite Hc2, last_range by lia. lia.
      + now rewrite Hb2, Hb1.
    - exists e1. unfold process_missing_blocks. rewrite Hc1.
      replace (last_processed_height e <? H) with false
        by (symmetry; apply Z.ltb_ge; lia).
      rewrite range_nil by lia. cbn. rewrite app_nil_r.
      repeat split; auto; lia. }
  destruct Hmid as (e2 & -> & Hl2 & Hc2 & Hb2).
  destruct (deliver_requests (signal_after tk) e2)
    as (evs3 & Hl3 & Hreq3 & Hproc3 & Hc3 & Hb3).
  rewrite (new_events_app e _
             ([Request None]
                ++ success_events hash
                     (Py.range (last_processed_height e + 1) (H + 1))
                ++ evs3))
    by (rewrite Hl3, Hl2, Hl1, <- !app_assoc; reflexivity).
  rewrite !requested_app, !processed_app, Hreq3, Hproc3,
    requested_success, processed_success, !app_nil_r.
  cbn [requested processed app].
  rewrite Hc3, Hb3. auto.
Qed.

Lemma poll_unreachable tk e :
  node tk None = Raised ->
  exists evs,
    log (poll tk e) = log e ++ evs /\ requested evs = [] /\ processed evs = [] /\
    untouched e (poll tk e).
Proof.
  intros Hnode. unfold poll, get_block. rewrite Hnode.
  set (e1 := emit (Error_fetching None) (emit (Request None) e)).
  destruct (deliver_requests (signal_after tk) e1)
    as (evs & Hl & Hreq & Hproc & Hc & Hb).
  exists ([Request None; Error_fetching None] ++ evs).
  rewrite Hl, requested_app, processed_app, Hreq, Hproc.
  split; [unfold e1; cbn; now rewrite <- !app_assoc|].
  repeat split; assumption.
Qed.

(** X7 (the node cannot be reached).  Over any number of passes in each of
    which the request for the head raises, no block is asked for by height,
    the ledger and the cursor stay as they are, and the run does not end by
    itself: the flag is cleared only if a signal came. *)
Theorem unreachable_node_changes_nothing tks e :
  Forall (fun tk => node tk None = Raised) tks ->
  let e' := run tks e in
  requested (new_events e e') = [] /\
  processed (new_events e e') = [] /\
  last_processed_height e' = last_processed_height e /\
  blocks_file (disk e') = blocks_file (disk e) /\
  (Forall (fun tk => signal_after tk = None) tks ->
   running e' = running e).
Proof.
  intros Hall. cbv zeta.
  assert (Hloop : forall e0,
            exists evs,
              log (poll_loop tks e0) = log e0 ++ evs /\
              requested evs = [] /\ processed evs = [] /\
              untouched e0 (poll_loop tks e0) /\
              (Forall (fun tk => signal_after tk = None) tks ->
               running (poll_loop tks e0) = running e0)).
  { induction Hall as [|tk rest Hnode Hrest IH]; intros e0.
    - exists []. cbn. rewrite app_nil_r. repeat split.
    - cbn [poll_loop]. destruct (running e0) eqn:Hr0.
      + destruct (poll_unreachable tk e0 Hnode) as (evs1 & Hl1 & Hq1 & Hp1 & Hc1 & Hb1).
        destruct (IH (poll tk e0)) as (evs2 & Hl2 & Hq2 & Hp2 & [Hc2 Hb2] & Hr2).
        exists (evs1 ++ evs2).
        rewrite Hl2, Hl1, requested_app, processed_app, Hq1, Hq2, Hp1, Hp2,
          <- app_assoc.
        repeat split; try congruence.
        intros Hsig. inversion Hsig as [|? ? Hs Hs']; subst.
        rewrite (Hr2 Hs'). unfold poll, get_block. rewrite Hnode, Hs.
        cbn. exact Hr0.
      + exists []. rewrite app_nil_r. repeat split; auto. }
  unfold run.
  destruct (Hloop (emit Startup e)) as (evs & Hl & Hq & Hp & [Hc Hb] & Hr).
  destruct (running (poll_loop tks (emit Startup e))) eqn:Hrun.
  - rewrite (new_events_app e _ ([Startup] ++ evs))
      by (rewrite Hl; cbn; now rewrite <- app_assoc).
    rewrite requested_app, processed_app, Hq, Hp.
    repeat split; auto. intros Hsig. specialize (Hr Hsig). cbn in Hr. congruence.
  - rewrite (new_events_app e _
               ([Startup] ++ evs
                  ++ [Shutdown_complete
                        (last_processed_height (poll_loop tks (emit Startup e)))]))
      by (cbn; rewrite Hl; cbn; now rewrite <- !app_assoc).
    rewrite !requested_app, !processed_app, Hq, Hp.
    repeat split; auto. intros Hsig. specialize (Hr Hsig). cbn in *. congruence.
Qed.

(** X8 (cursor and ledger agree).  Whatever the node answers: when a run
    that found a ledger ending in a line end has processed a block, and the
    hashes it wrote are one line each, the height a start of the program
    reads from the ledger is the cursor the run ended with. *)
Theorem cursor_is_tail_after_run tks e text :
  blocks_file (disk e) = Some (text ++ NL)%string ->
  processed (new_events e (run tks e)) <> [] ->
  clean (processed (new_events e (run tks e))) = true ->
  tail_height (blocks_file (disk (run tks e)))
  = Some (last_processed_height (run tks e)).
Proof.
  intros Hfile Hsome Hclean.
  destruct (run_extends tks e) as (evs & (Hlog & Hb & Hc) & _).
  rewrite (new_events_app _ _ _ Hlog) in *.
  rewrite Hb, Hc, Hfile, append_all_some.
  destruct (exists_last Hsome) as (blocks & b & Heq).
  rewrite Heq in *. clear Heq.
  destruct b as [h hash]. rewrite clean_app in Hclean.
  apply andb_prop in Hclean as [_ Hone]. cbn in Hone. rewrite andb_true_r in Hone.
  rewrite map_app. cbn [map fst]. rewrite last_last.
  rewrite record_lines_snoc, <- append_assoc.
  apply tail_height_snoc; [exact Hone | |].
  - destruct text; discriminate.
  - destruct (record_lines blocks) eqn:E.
    + rewrite append_nil_r. apply ends_lf_app. discriminate.
    + rewrite ends_lf_app by discriminate. rewrite <- E. apply record_lines_ends_lf.
Qed.

End AnyPass.

(** ** Further properties: what a start reads *)

Section Reading.

Local Open Scope string_scope.

Lemma handle_shutdown_marker sg e : state_file (disk (handle_shutdown sg e)) = None.
Proof.
  unfold handle_shutdown. cbn. destruct (state_file (disk e)) eqn:E; cbn; auto.
Qed.

(** X10 (a record is read back).  After an append that goes through, on a
    ledger that ends in a line end, and a signal, a start takes the height
    that was appended for its cursor, whatever the hash holds (commas,
    blanks) as long as it is one line. *)
Theorem appended_record_is_read_back e text h hash sg :
  blocks_file (disk e) = Some (text ++ NL) ->
  one_line hash = true ->
  let left_behind := disk (handle_shutdown sg (snd (append_block true h hash e))) in
  blocks_file left_behind = Some (text ++ NL ++ record_line h hash) /\
  exists e2,
    __init__ true left_behind = Constructed e2 /\
    last_processed_height e2 = h /\
    log e2 = [Init_found h].
Proof.
  intros Hfile Hone. cbv zeta.
  assert (Hb : blocks_file (disk (handle_shutdown sg (snd (append_block true h hash e))))
               = Some (text ++ NL ++ record_line h hash)).
  { destruct (handle_shutdown_untouched sg (snd (append_block true h hash e)))
      as [[_ Hb] _].
    rewrite Hb. cbn. rewrite Hfile. cbn. now rewrite append_assoc. }
  split; [exact Hb|].
  rewrite init_free.
  - eexists. split; [reflexivity|].
    unfold _init_blocks_file. cbn [set_state_file born disk blocks_file].
    rewrite Hb, <- append_assoc.
    rewrite read_last_height_snoc; [split; reflexivity | exact Hone | |].
    + destruct text; discriminate.
    + apply ends_lf_app. discriminate.
  - intros c Hc. rewrite handle_shutdown_marker in Hc. discriminate.
Qed.

(** X11 (a last line without a line end).  When the last line of the ledger
    is a record that lacks its line end, the record appended next is glued
    to it: a start reads the height of the old record, not the height that
    was appended. *)
Theorem unterminated_tail_swallows_record text k hash0 h hash :
  one_line hash0 = true ->
  one_line hash = true ->
  tail_height
    (append_text (record_line h hash)
       (Some (text ++ NL ++ Py.str k ++ "," ++ hash0)))
  = Some k.
Proof.
  intros H0 H1. cbn [append_text].
  replace ((text ++ NL ++ Py.str k ++ "," ++ hash0) ++ record_line h hash)
    with ((text ++ NL) ++ record_line k (hash0 ++ record_body h hash)).
  - apply tail_height_snoc.
    + unfold one_line. rewrite all_chars_app. fold (one_line hash0).
      fold (one_line (record_body h hash)).
      now rewrite H0, record_body_one_line.
    + destruct text; discriminate.
    + apply ends_lf_app. discriminate.
  - rewrite (record_line_body h hash). unfold record_line.
    now rewrite !append_assoc.
Qed.

Lemma cut_lines_no_lf s :
  no_lf s = true ->
  Py.cut_lines s = if Py.is_empty s then [] else [s].
Proof.
  unfold no_lf. induction s as [|c s IH]; [reflexivity|].
  cbn [all_chars Py.cut_lines Py.is_empty]. intros H.
  apply andb_prop in H as [Hc Hs]. apply negb_true_iff in Hc.
  rewrite Hc, (IH Hs). now destruct s.
Qed.

(** X12 (a ledger of one line).  A ledger that holds one line only, with or
    without its line end, is taken for a ledger with nothing but the
    header, whatever the line is: the start logs nothing and leaves the
    cursor as it is, also when the line is a record. *)
Theorem single_line_ledger_is_ignored e line :
  one_line line = true ->
  blocks_file (disk e) = Some line \/ blocks_file (disk e) = Some (line ++ NL) ->
  _init_blocks_file true e = e.
Proof.
  intros Hone Hfile. rewrite one_line_split in Hone.
  apply andb_prop in Hone as [Hlf Hcr].
  assert (Hshort : forall content,
            content = line \/ content = line ++ NL ->
            read_last_height content = None).
  { intros content [->| ->]; unfold read_last_height, Py.readlines,
      Py.universal_newlines.
    - rewrite (newlines_no_cr line Hcr), (cut_lines_no_lf line Hlf).
      now destruct (Py.is_empty line).
    - rewrite newlines_no_cr.
      + now rewrite (splitlines_one line Hlf).
      + unfold no_cr in *. now rewrite all_chars_app, Hcr. }
  unfold _init_blocks_file.
  destruct Hfile as [Hf|Hf]; rewrite Hf, Hshort; auto.
Qed.

(** X13 (an empty last line).  When the ledger ends in an empty line, the
    start cannot read a height from it: it logs the error and leaves the
    cursor at its first value 1, whatever records stand before the empty
    line; the ledger is left as it is. *)
Theorem blank_last_line_resets_cursor d text :
  lock_free d ->
  blocks_file d = Some (text ++ NL ++ NL) ->
  exists e,
    __init__ true d = Constructed e /\
    last_processed_height e = 1 /\
    log e = [Error_reading] /\
    blocks_file (disk e) = Some (text ++ NL ++ NL).
Proof.
  intros Hfree Hfile.
  assert (Hread : read_last_height (text ++ NL ++ NL) = Some None).
  { unfold read_last_height, Py.readlines, Py.universal_newlines.
    rewrite <- append_assoc.
    rewrite newlines_app;
      [| destruct text; discriminate | apply ends_lf_app; discriminate].
    rewrite splitlines_app
      by (apply ends_lf_newlines, ends_lf_app; discriminate).
    pose proof (splitlines_not_nil (Py.newlines false (text ++ NL))) as Hne.
    destruct (Py.cut_lines (Py.newlines false (text ++ NL))) as [|l ls].
    - exfalso. apply Hne; [|reflexivity].
      apply newlines_not_empty. destruct text; discriminate.
    - replace (1 <? List.length ((l :: ls) ++ Py.cut_lines (Py.newlines false NL)))%nat
        with true
        by (symmetry; apply Nat.ltb_lt; rewrite length_app; cbn; lia).
      unfold Py.last_line.
      change (Py.cut_lines (Py.newlines false NL)) with [NL].
      rewrite last_last. reflexivity. }
  rewrite (init_free true d Hfree). eexists. split; [reflexivity|].
  unfold _init_blocks_file. cbn [set_state_file born disk blocks_file].
  rewrite Hfile, Hread. cbn. rewrite Hfile. auto.
Qed.

(** X14 (a start does not write an existing ledger).  Whether the lock is
    held or not, whether the ledger can be read or not and whatever it
    holds, the constructor leaves an existing ledger file as it is. *)
Theorem start_keeps_existing_ledger readable d content :
  blocks_file d = Some content ->
  match __init__ readable d with
  | SysExit _ e => blocks_file (disk e) = Some content
  | Constructed e => blocks_file (disk e) = Some content
  end.
Proof.
  intros Hfile. unfold __init__, _check_and_acquire_lock. fold (born d).
  destruct (match state_file (disk (born d)) with
            | Some c => (marker_token c =? "processing")%string
            | None => false
            end); cbn [negb].
  - exact Hfile.
  - unfold _init_blocks_file. cbn [set_state_file born disk blocks_file].
    rewrite Hfile.
    destruct readable; [|exact Hfile].
    destruct (read_last_height content) as [[h|]|]; exact Hfile.
Qed.

End Reading.

(** ** Further properties: the marker with white space *)

Section Padding.

Local Open Scope string_scope.

Lemma isspace_line_breaks c :
  Ascii.eqb c Py.CR = true \/ Ascii.eqb c Py.LF = true -> Py.isspace c = true.
Proof.
  intros [H|H]; apply Ascii.eqb_eq in H; subst c; reflexivity.
Qed.

Lemma newlines_space f s :
  all_chars Py.isspace s = true -> all_chars Py.isspace (Py.newlines f s) = true.
Proof.
  revert f. induction s as [|c s IH]; intros f H; [reflexivity|].
  cbn [all_chars] in H. apply andb_prop in H as [Hc Hs].
  cbn [Py.newlines].
  destruct (Ascii.eqb c Py.CR); [cbn [all_chars]; now rewrite IH|].
  destruct (Ascii.eqb c Py.LF).
  - destruct f; [now apply IH | cbn [all_chars]; now rewrite IH].
  - cbn [all_chars]. now rewrite Hc, IH.
Qed.

Lemma newlines_keep f a c b :
  Ascii.eqb c Py.CR = false -> Ascii.eqb c Py.LF = false ->
  Py.newlines f (a ++ String c b)
  = Py.newlines f a ++ String c (Py.newlines false b).
Proof.
  intros Hcr Hlf. revert f. induction a as [|x a IH]; intros f.
  - cbn [append Py.newlines]. now rewrite Hcr, Hlf.
  - cbn [append Py.newlines].
    destruct (Ascii.eqb x Py.CR); [cbn [append]; now rewrite IH|].
    destruct (Ascii.eqb x Py.LF); [destruct f|]; cbn [append]; now rewrite IH.
Qed.

Lemma rstrip_space s : all_chars Py.isspace s = true -> Py.rstrip s = EmptyString.
Proof.
  induction s as [|c s IH]; [reflexivity|].
  cbn [all_chars Py.rstrip]. intros H. apply andb_prop in H as [Hc Hs].
  now rewrite (IH Hs), Hc.
Qed.

Lemma lstrip_space a b :
  all_chars Py.isspace a = true -> Py.lstrip (a ++ b) = Py.lstrip b.
Proof.
  induction a as [|c a IH]; [reflexivity|].
  cbn [all_chars append Py.lstrip]. intros H. apply andb_prop in H as [Hc Ha].
  now rewrite Hc, IH.
Qed.

Lemma padded_token pre post :
  all_chars Py.isspace pre = true ->
  all_chars Py.isspace post = true ->
  marker_token (pre ++ "processing" ++ post) = "processing".
Proof.
  intros Hpre Hpost. unfold marker_token, Py.read, Py.universal_newlines.
  replace (pre ++ "processing" ++ post)
    with ((pre ++ String "p" "rocessin") ++ String "g" post)
    by (now rewrite append_assoc).
  rewrite newlines_keep by reflexivity.
  rewrite newlines_keep by reflexivity.
  change (Py.newlines false "rocessin") with "rocessin".
  unfold Py.strip.
  rewrite rstrip_keep by reflexivity.
  rewrite (rstrip_space _ (newlines_space false post Hpost)).
  rewrite append_assoc.
  rewrite (lstrip_space _ _ (newlines_space false pre Hpre)).
  reflexivity.
Qed.

(** X15 (white space around the marker).  A marker that holds [processing]
    with any white space before and after it (blanks, tabs, line ends of
    either kind) says that a processor is at work: the start ends in
    [sys.exit(0)] and leaves the storage as it is. *)
Theorem padded_marker_is_held readable d pre post :
  all_chars Py.isspace pre = true ->
  all_chars Py.isspace post = true ->
  state_file d = Some (pre ++ "processing" ++ post) ->
  exists e,
    __init__ readable d = SysExit 0 e /\
    disk e = d /\
    log e = [Init_other_running; Init_exiting].
Proof.
  intros Hpre Hpost Hfile.
  assert (Hlock : _check_and_acquire_lock (born d)
                  = (false, emit Init_other_running (born d))).
  { unfold _check_and_acquire_lock. cbn [born disk].
    rewrite Hfile, (padded_token pre post Hpre Hpost). reflexivity. }
  exists (emit Init_exiting (emit Init_other_running (born d))).
  unfold __init__. fold (born d). rewrite Hlock. repeat split.
Qed.

End Padding.

(** ** Further properties: the log formatter *)

Section Formatting.

Import JsonFormatter.

Local Open Scope string_scope.

Variable formatTime : Z -> string.
Variable dumps : pydict -> string.

Lemma get_setitem_same k v d : get k (setitem k v d) = Some v.
Proof.
  induction d as [|[k' v'] rest IH]; cbn.
  - now rewrite String.eqb_refl.
  - destruct (String.eqb_spec k' k) as [->|Hne]; cbn.
    + now rewrite String.eqb_refl.
    + destruct (String.eqb_spec k' k); [congruence | exact IH].
Qed.

Lemma get_setitem_other k k' v d :
  k' <> k -> get k' (setitem k v d) = get k' d.
Proof.
  intros Hne. induction d as [|[k0 v0] rest IH]; cbn.
  - destruct (String.eqb_spec k k'); [congruence | reflexivity].
  - destruct (String.eqb_spec k0 k) as [->|Hk]; cbn.
    + destruct (String.eqb_spec k k'); [congruence | reflexivity].
    + destruct (String.eqb_spec k0 k'); [reflexivity | exact IH].
Qed.

Lemma keys_setitem k v d :
  map fst (setitem k v d)
  = match get k d with
    | Some _ => map fst d
    | None => (map fst d ++ [k])%list
    end.
Proof.
  induction d as [|[k' v'] rest IH]; cbn; [reflexivity|].
  destruct (String.eqb_spec k' k) as [->|Hne]; cbn; [reflexivity|].
  rewrite IH. now destruct (get k rest).
Qed.

Lemma setitem_setitem_same k v d : setitem k v (setitem k v d) = setitem k v d.
Proof.
  induction d as [|[k' v'] rest IH]; cbn.
  - now rewrite String.eqb_refl.
  - destruct (String.eqb_spec k' k) as [->|Hne]; cbn.
    + now rewrite String.eqb_refl.
    + destruct (String.eqb_spec k' k); [congruence | now rewrite IH].
Qed.

Lemma setitem_present k v d : get k d = Some v -> setitem k v d = d.
Proof.
  induction d as [|[k' v'] rest IH]; cbn; [discriminate|].
  destruct (String.eqb_spec k' k) as [->|Hne].
  - now intros [= ->].
  - intros H. now rewrite IH.
Qed.

(** X16 (time and level of a log record).  The dict [format] hands to
    [json.dumps] has the time and the level of the record under
    [timestamp] and [level], also when the message is a dict that has
    these keys with other values; every other key of a dict message keeps
    its value; and the keys of the message keep their order, the two coming
    after them where they are new. *)
Theorem format_stamps_record record d :
  msg record = MsgDict d ->
  fst (format formatTime dumps record) = dumps (json_record formatTime record) /\
  get "timestamp" (json_record formatTime record)
    = Some (VStr (formatTime (created record))) /\
  get "level" (json_record formatTime record) = Some (VStr (levelname record)) /\
  (forall k, k <> "timestamp" -> k <> "level" ->
     get k (json_record formatTime record) = get k d) /\
  exists added,
    map fst (json_record formatTime record) = (map fst d ++ added)%list /\
    (forall k, In k added -> (k = "timestamp" \/ k = "level") /\ get k d = None).
Proof.
  intros Hmsg. unfold format, json_record, update. rewrite Hmsg. cbn [fold_left fst snd].
  split; [reflexivity|]. split; [|split; [|split]].
  - rewrite get_setitem_other by discriminate. apply get_setitem_same.
  - apply get_setitem_same.
  - intros k Ht Hl. now rewrite !get_setitem_other by congruence.
  - rewrite !keys_setitem.
    rewrite get_setitem_other by discriminate.
    destruct (get "level" d) eqn:El; destruct (get "timestamp" d) eqn:Et.
    + exists []%list. rewrite app_nil_r. split; [reflexivity | intros k []].
    + exists ["timestamp"]%list. split; [reflexivity|].
      intros k [<-|[]]. auto.
    + exists ["level"]%list. split; [reflexivity|].
      intros k [<-|[]]. auto.
    + exists ["timestamp"; "level"]%list. split; [now rewrite <- app_assoc|].
      intros k [<-|[<-|[]]]; auto.
Qed.

(** X17 (the logged dict is updated in place).  A dict that is logged is
    the dict [format] updates: afterwards the record holds the dict with
    [timestamp] and [level], and formatting the record once more, as a
    second handler would, gives the same text and changes nothing more. *)
Theorem format_twice record d :
  msg record = MsgDict d ->
  let '(text, after) := format formatTime dumps record in
  msg after = MsgDict (json_record formatTime record) /\
  format formatTime dumps after = (text, after).
Proof.
  intros Hmsg. unfold format. rewrite Hmsg. cbn [msg levelname created].
  split; [reflexivity|].
  assert (Hfix : json_record formatTime
                   {| msg := MsgDict (json_record formatTime record);
                      levelname := levelname record;
                      created := created record |}
                 = json_record formatTime record).
  { unfold json_record, update. rewrite Hmsg. cbn [msg levelname created fold_left fst snd].
    set (t := VStr (formatTime (created record))).
    set (l := VStr (levelname record)).
    rewrite (setitem_present "timestamp" t (setitem "level" l (setitem "timestamp" t d))).
    - apply setitem_setitem_same.
    - rewrite get_setitem_other by discriminate. apply get_setitem_same. }
  now rewrite Hfix.
Qed.

End Formatting.

(** ** Further properties: a height that failed *)

Section Retry.

Local Open Scope list_scope.

Lemma for_heights_outcome tk :
  faithful tk -> forall n lo e,
  last_processed_height e = lo - 1 ->
  exists evs,
    log (snd (for_heights tk (Py.range lo (lo + Z.of_nat n)) e)) = log e ++ evs /\
    ((fst (for_heights tk (Py.range lo (lo + Z.of_nat n)) e) = Next /\
      last_processed_height (snd (for_heights tk (Py.range lo (lo + Z.of_nat n)) e))
        = lo - 1 + Z.of_nat n) \/
     running (snd (for_heights tk (Py.range lo (lo + Z.of_nat n)) e)) = false \/
     (requested evs <> [] /\
      last (requested evs) 0
        = last_processed_height
            (snd (for_heights tk (Py.range lo (lo + Z.of_nat n)) e)) + 1)).
Proof.
  intros Hf. induction n as [|n IH]; intros lo e Hc.
  - rewrite range_nil by lia. exists []. cbn. rewrite app_nil_r.
    split; [reflexivity|]. left. split; [reflexivity | lia].
  - rewrite (range_cons lo) by lia.
    replace (lo + Z.of_nat (S n)) with (lo + 1 + Z.of_nat n) by lia.
    cbn [for_heights].
    destruct (iteration_effect tk lo e) as (evs1 & Hlog1 & Heff).
    destruct (iteration tk lo e) as [fl e1]. cbn [fst snd] in *.
    inversion Heff as [e' evs _ _ _ _ Hstop
                      |e' evs _ _ _ Hreq _ [Hc1 _] _
                      |e' bh hash _ _ Hnode _ Hc1 _ _];
      subst fl evs1.
    + exists evs. cbn [fst snd]. auto.
    + exists evs. cbn [fst snd]. split; [assumption|]. right. right.
      rewrite Hreq, Hc1, Hc. cbn. split; [discriminate | lia].
    + assert (bh = lo) as ->.
      { specialize (Hf lo). rewrite Hnode in Hf. cbn in Hf. lia. }
      destruct (IH (lo + 1) e1) as (evs2 & Hlog2 & Hcase); [lia|].
      exists ([Request (Some lo); Block_processed lo hash] ++ evs2).
      split; [now rewrite Hlog2, Hlog1, <- app_assoc|].
      destruct Hcase as [[Hn Hc2]|[Hr|[Hne Hlast]]].
      * left. split; [exact Hn | lia].
      * right. left. exact Hr.
      * right. right.
        change (requested ([Request (Some lo); Block_processed lo hash] ++ evs2))
          with (lo :: requested evs2).
        split; [discriminate|].
        rewrite <- Hlast. destruct (requested evs2); [congruence | reflexivity].
Qed.

Lemma first_request tk current e :
  running e = true ->
  last_processed_height e < current ->
  signal_before tk (last_processed_height e + 1) = None ->
  exists rest,
    requested (new_events e (process_missing_blocks tk current e))
    = (last_processed_height e + 1) :: rest.
Proof.
  intros Hrun Hlt Hsig.
  rewrite process_missing_blocks_loop by lia.
  rewrite range_cons by lia. cbn [for_heights].
  destruct (iteration_effect tk (last_processed_height e + 1) e)
    as (evs1 & Hlog1 & Heff).
  destruct (iteration tk (last_processed_height e + 1) e) as [fl e1].
  cbn [fst snd] in *.
  inversion Heff as [e' evs Hwhy _ _ _ _
                    |e' evs _ _ _ Hreq _ _ _
                    |e' bh hash _ _ _ _ _ _ _];
    subst fl evs1.
  - destruct Hwhy; congruence.
  - exists []. cbn [snd]. now rewrite (new_events_app _ _ _ Hlog1).
  - destruct (for_heights_trace tk
                (Py.range (last_processed_height e + 1 + 1) (current + 1)) e1)
      as (evs2 & Hlog2 & _).
    exists (requested evs2).
    rewrite (new_events_app e _
               ([Request (Some (last_processed_height e + 1));
                 Block_processed bh hash] ++ evs2))
      by (now rewrite Hlog2, Hlog1, <- app_assoc).
    reflexivity.
Qed.

(** X9 (a restart resumes where the run ended).  Let a storage be brought
    about from nothing with a well-formed node, and let a process started
    on it run under such a node for any number of passes.  A start on the
    ledger it leaves (the marker being released) takes for its cursor the
    cursor the run ended with.  The records of the ledger are those of the
    heights 2 to this cursor, and the first pass that finds the head above
    the cursor begins, if no signal comes first, with the request for the
    height after the cursor, which is 2 at least: no height of the ledger
    is asked for again, and height 1, which is not in the ledger, is not
    asked for either. *)
Theorem restart_resumes_cursor d e tks d2 :
  produced well_formed d ->
  __init__ true d = Constructed e ->
  Forall well_formed tks ->
  blocks_file d2 = blocks_file (disk (run tks e)) ->
  lock_free d2 ->
  exists e2 content,
    __init__ true d2 = Constructed e2 /\
    last_processed_height e2 = last_processed_height (run tks e) /\
    blocks_file (disk e2) = blocks_file d2 /\
    running e2 = true /\
    1 <= last_processed_height e2 /\
    blocks_file d2 = Some content /\
    ledger_heights content = map Some (Py.range 2 (last_processed_height e2 + 1)) /\
    forall tk current,
      last_processed_height e2 < current ->
      signal_before tk (last_processed_height e2 + 1) = None ->
      exists rest,
        requested (new_events e2 (process_missing_blocks tk current e2))
        = (last_processed_height e2 + 1) :: rest.
Proof.
  intros Hd Hinit Hall Hsame Hfree.
  pose proof (init_in_step d e (produced_regular d Hd) Hinit) as Hstep.
  destruct (run_in_step tks e Hall Hstep) as (content & Hfile & Hreg).
  rewrite (init_free true d2 Hfree).
  remember (_init_blocks_file true
              (set_state_file (Some ("processing" ++ NL)%string) (born d2)))
    as e2 eqn:He2.
  assert (Hfacts : last_processed_height e2 = last_processed_height (run tks e) /\
                   blocks_file (disk e2) = blocks_file d2 /\
                   running e2 = true).
  { subst e2. unfold _init_blocks_file. cbn [set_state_file born disk blocks_file].
    rewrite Hsame, Hfile, (regular_read _ _ Hreg).
    destruct (Z.eqb_spec (last_processed_height (run tks e)) 1) as [Heq|Hne];
      cbn; repeat split; congruence. }
  destruct Hfacts as (Hc & Hb & Hrun).
  exists e2, content.
  split; [reflexivity|]. split; [exact Hc|]. split; [exact Hb|].
  split; [exact Hrun|].
  split; [destruct Hreg as (_ & _ & _ & _ & Hge); now rewrite Hc|].
  split; [congruence|]. split.
  - destruct Hreg as (blocks & -> & Hclean & Hh & _).
    rewrite (ledger_heights_ledger _ Hclean), Hc, <- Hh.
    now rewrite map_map.
  - intros tk current Hlt Hsig. now apply first_request.
Qed.

(** X18 (a failed height is tried again).  Let the node answer with the
    heights asked for.  When a call of [process_missing_blocks] ends below
    the head with the flag still set, the last height it asked for is the
    height after its cursor and was not appended; and the next call, if no
    signal comes first, begins by asking for this very height. *)
Theorem failed_height_is_retried tk current e tk2 current2 :
  faithful tk ->
  let e1 := process_missing_blocks tk current e in
  last_processed_height e1 < current ->
  running e1 = true ->
  last_processed_height e1 < current2 ->
  signal_before tk2 (last_processed_height e1 + 1) = None ->
  last (requested (new_events e e1)) 0 = last_processed_height e1 + 1 /\
  ~ In (last_processed_height e1 + 1) (map fst (processed (new_events e e1))) /\
  exists rest,
    requested (new_events e1 (process_missing_blocks tk2 current2 e1))
    = (last_processed_height e1 + 1) :: rest.
Proof.
  intros Hf e1 Hbelow Hrun Hlt2 Hsig.
  split; [|split; [|now apply first_request]].
  - subst e1. unfold process_missing_blocks in *.
    destruct (last_processed_height e <? current) eqn:E; [|apply Z.ltb_ge in E; lia].
    apply Z.ltb_lt in E.
    remember (last_processed_height e + 1) as lo eqn:Hlo.
    destruct (for_heights_outcome tk Hf (Z.to_nat (current + 1 - lo)) lo e)
      as (evs & Hlog & Hcase); [lia|].
    replace (lo + Z.of_nat (Z.to_nat (current + 1 - lo))) with (current + 1)
      in * by lia.
    rewrite (new_events_app _ _ _ Hlog).
    destruct Hcase as [[_ Hc]|[Hr|[_ Hlast]]]; [lia | congruence | exact Hlast].
  - subst e1.
    destruct (process_missing_blocks_extends tk current e) as (evs & (Hlog & _) & Ho & _).
    destruct (Ho Hf) as [Hord _].
    rewrite (new_events_app _ _ _ Hlog), Hord.
    intros Hin. apply in_range in Hin. lia.
Qed.

End Retry.

(** ** The further properties at concrete runs *)

Section MoreRuns.

Import JsonFormatter.

Local Open Scope list_scope.

(** [stopped_run_releases_marker] for the process resumed at 7 and one
    pass, the chain at 9, after which a termination signal is handled. *)
Lemma stopped_run_releases_marker_witness :
  state_file (disk (run [last_pass 9] resumed)) = None /\
  last (log (run [last_pass 9] resumed)) Startup
    = Shutdown_complete (last_processed_height (run [last_pass 9] resumed)) /\
  exists e2, __init__ true (disk (run [last_pass 9] resumed)) = Constructed e2.
Proof.
  apply (stopped_run_releases_marker [last_pass 9] resumed); reflexivity.
Defined.

(** [live_marker_blocks_start] for a fresh start and one pass with the
    chain at 3. *)
Lemma live_marker_blocks_start_witness :
  state_file (disk (run [quiet (chain 3 tag)] fresh))
    = Some ("processing" ++ NL)%string /\
  exists e2,
    __init__ true (disk (run [quiet (chain 3 tag)] fresh)) = SysExit 0 e2 /\
    disk e2 = disk (run [quiet (chain 3 tag)] fresh) /\
    log e2 = [Init_other_running; Init_exiting].
Proof.
  apply (live_marker_blocks_start true empty_storage fresh
           [quiet (chain 3 tag)] true); reflexivity.
Defined.

(** [run_only_appends] for the process resumed at 7 and two passes, the
    second with the request for height 11 raising. *)
Lemma run_only_appends_witness :
  let tks := [quiet (chain 9 tag); quiet (outage 11 12)] in
  blocks_file (disk (run tks resumed))
  = Some ((header ++ record_line 7 (tag 7))
            ++ record_lines (processed (new_events resumed (run tks resumed))))%string.
Proof.
  apply (run_only_appends [quiet (chain 9 tag); quiet (outage 11 12)] resumed).
  reflexivity.
Defined.

(** [pass_catches_up] for the process resumed at 7 and the chain at 40. *)
Lemma pass_catches_up_witness :
  let e' := poll (quiet (chain 40 tag)) resumed in
  let missing := Py.range (last_processed_height resumed + 1) (40 + 1) in
  last_processed_height e' = Z.max (last_processed_height resumed) 40 /\
  blocks_file (disk e')
    = append_all (blocks_of tag missing) (blocks_file (disk resumed)) /\
  requested (new_events resumed e') = missing /\
  processed (new_events resumed e') = blocks_of tag missing.
Proof.
  apply (pass_catches_up (quiet (chain 40 tag)) tag resumed 40 (Some (tag 40))).
  - reflexivity.
  - reflexivity.
  - intros h _. repeat split.
Defined.

(** [unreachable_node_changes_nothing] for the process resumed at 7 and
    three passes without an answer. *)
Lemma unreachable_node_changes_nothing_witness :
  let tks := [quiet unreachable; quiet unreachable; quiet unreachable] in
  let e' := run tks resumed in
  requested (new_events resumed e') = [] /\
  processed (new_events resumed e') = [] /\
  last_processed_height e' = last_processed_height resumed /\
  blocks_file (disk e') = blocks_file (disk resumed) /\
  (Forall (fun tk => signal_after tk = None) tks ->
   running e' = running resumed).
Proof.
  apply (unreachable_node_changes_nothing
           [quiet unreachable; quiet unreachable; quiet unreachable] resumed).
  repeat constructor.
Defined.

(** [cursor_is_tail_after_run] for the process resumed at 7 and a node
    that answers its request for height 8 with the block of height 20. *)
Lemma cursor_is_tail_after_run_witness :
  tail_height (blocks_file (disk (run [quiet misplaced] resumed)))
  = Some (last_processed_height (run [quiet misplaced] resumed)).
Proof.
  apply (cursor_is_tail_after_run [quiet misplaced] resumed
           ("height,hash" ++ NL ++ "7,H7")%string).
  - reflexivity.
  - vm_compute. discriminate.
  - reflexivity.
Defined.

(** [restart_resumes_cursor] for a fresh start, a pass with the chain at 4
    and a marker that has been removed. *)
Lemma restart_resumes_cursor_witness :
  let left_behind :=
    {| state_file := None;
       blocks_file := blocks_file (disk (run [quiet (chain 4 tag)] fresh)) |} in
  exists e2 content,
    __init__ true left_behind = Constructed e2 /\
    last_processed_height e2
      = last_processed_height (run [quiet (chain 4 tag)] fresh) /\
    blocks_file (disk e2) = blocks_file left_behind /\
    running e2 = true /\
    1 <= last_processed_height e2 /\
    blocks_file left_behind = Some content /\
    ledger_heights content = map Some (Py.range 2 (last_processed_height e2 + 1)) /\
    forall tk current,
      last_processed_height e2 < current ->
      signal_before tk (last_processed_height e2 + 1) = None ->
      exists rest,
        requested (new_events e2 (process_missing_blocks tk current e2))
        = (last_processed_height e2 + 1) :: rest.
Proof.
  apply (restart_resumes_cursor empty_storage fresh [quiet (chain 4 tag)]).
  - apply (produced_fresh _ None).
  - reflexivity.
  - constructor; [apply chain_well_formed | constructor].
  - reflexivity.
  - intros c Hc. simpl in Hc. discriminate.
Defined.

(** [appended_record_is_read_back] for the process resumed at 7 and a hash
    with a comma and a blank. *)
Lemma appended_record_is_read_back_witness :
  let left_behind :=
    disk (handle_shutdown SIGINT (snd (append_block true 8 "a, b" resumed))) in
  blocks_file left_behind
    = Some (("height,hash" ++ NL ++ "7,H7") ++ NL ++ record_line 8 "a, b")%string /\
  exists e2,
    __init__ true left_behind = Constructed e2 /\
    last_processed_height e2 = 8 /\
    log e2 = [Init_found 8].
Proof.
  apply (appended_record_is_read_back resumed
           ("height,hash" ++ NL ++ "7,H7")%string 8 "a, b"%string SIGINT);
    reflexivity.
Defined.

(** [unterminated_tail_swallows_record] for a ledger whose record of
    height 7 lacks its line end. *)
Lemma unterminated_tail_swallows_record_witness :
  tail_height
    (append_text (record_line 8 "H8")
       (Some ("height,hash" ++ NL ++ Py.str 7 ++ "," ++ "H7")%string))
  = Some 7.
Proof.
  apply (unterminated_tail_swallows_record "height,hash"%string 7 "H7"%string
           8 "H8"%string); reflexivity.
Defined.

(** [single_line_ledger_is_ignored] for a ledger that holds the record of
    height 5 and no header. *)
Lemma single_line_ledger_is_ignored_witness :
  let e := set_blocks_file (Some ("5,aa" ++ NL)%string) resumed in
  _init_blocks_file true e = e.
Proof.
  apply (single_line_ledger_is_ignored
           (set_blocks_file (Some ("5,aa" ++ NL)%string) resumed) "5,aa"%string).
  - reflexivity.
  - right. reflexivity.
Defined.

(** [blank_last_line_resets_cursor] for the ledger ending at height 5 with
    an empty line after it. *)
Lemma blank_last_line_resets_cursor_witness :
  let d := {| state_file := None;
              blocks_file := Some (("height,hash" ++ NL ++ "5,aa") ++ NL ++ NL)%string |} in
  exists e,
    __init__ true d = Constructed e /\
    last_processed_height e = 1 /\
    log e = [Error_reading] /\
    blocks_file (disk e) = Some (("height,hash" ++ NL ++ "5,aa") ++ NL ++ NL)%string.
Proof.
  apply (blank_last_line_resets_cursor
           {| state_file := None;
              blocks_file := Some (("height,hash" ++ NL ++ "5,aa") ++ NL ++ NL)%string |}
           ("height,hash" ++ NL ++ "5,aa")%string).
  - intros c Hc. simpl in Hc. discriminate.
  - reflexivity.
Defined.

(** [start_keeps_existing_ledger] for the ledger ending at height 5. *)
Lemma start_keeps_existing_ledger_witness :
  match __init__ false storage_at_5 with
  | SysExit _ e => blocks_file (disk e) = Some (header ++ record_line 5 "aa")%string
  | Constructed e => blocks_file (disk e) = Some (header ++ record_line 5 "aa")%string
  end.
Proof.
  apply (start_keeps_existing_ledger false storage_at_5
           (header ++ record_line 5 "aa")%string).
  reflexivity.
Defined.

(** [padded_marker_is_held] for a marker with a blank before and a
    carriage return and a line feed after the word. *)
Lemma padded_marker_is_held_witness :
  let d := {| state_file :=
                Some (" " ++ "processing"
                        ++ String Py.CR (String Py.LF EmptyString))%string;
              blocks_file := None |} in
  exists e,
    __init__ true d = SysExit 0 e /\
    disk e = d /\
    log e = [Init_other_running; Init_exiting].
Proof.
  apply (padded_marker_is_held true
           {| state_file :=
                Some (" " ++ "processing"
                        ++ String Py.CR (String Py.LF EmptyString))%string;
              blocks_file := None |}
           " "%string (String Py.CR (String Py.LF EmptyString)));
    reflexivity.
Defined.

(** [failed_height_is_retried] for the process resumed at 7, a pass in
    which the request for height 10 raises and a pass in which it does
    not. *)
Lemma failed_height_is_retried_witness :
  let e1 := process_missing_blocks (quiet (outage 10 12)) 12 resumed in
  last (requested (new_events resumed e1)) 0 = last_processed_height e1 + 1 /\
  ~ In (last_processed_height e1 + 1)
       (map fst (processed (new_events resumed e1))) /\
  exists rest,
    requested (new_events e1 (process_missing_blocks (quiet (chain 12 tag)) 12 e1))
    = (last_processed_height e1 + 1) :: rest.
Proof.
  apply (failed_height_is_retried (quiet (outage 10 12)) 12 resumed
           (quiet (chain 12 tag)) 12).
  - intros h. simpl. destruct (h =? 10); simpl; [reflexivity | apply Z.eqb_refl].
  - vm_compute. reflexivity.
  - reflexivity.
  - vm_compute. reflexivity.
  - reflexivity.
Defined.

(** [format_stamps_record] for an info record whose dict has a key
    [level] of its own. *)
Lemma format_stamps_record_witness :
  let d := [("event", VStr "init"); ("level", VStr "DEBUG")]%string in
  let stamp := fun _ : Z => "2026-01-01"%string in
  let dumps := fun _ : pydict => "{}"%string in
  fst (format stamp dumps (info_record d)) = dumps (json_record stamp (info_record d)) /\
  get "timestamp" (json_record stamp (info_record d))
    = Some (VStr (stamp (created (info_record d)))) /\
  get "level" (json_record stamp (info_record d))
    = Some (VStr (levelname (info_record d))) /\
  (forall k, k <> "timestamp"%string -> k <> "level"%string ->
     get k (json_record stamp (info_record d)) = get k d) /\
  exists added,
    map fst (json_record stamp (info_record d)) = map fst d ++ added /\
    (forall k, In k added ->
       (k = "timestamp"%string \/ k = "level"%string) /\ get k d = None).
Proof.
  apply (format_stamps_record (fun _ => "2026-01-01"%string)
           (fun _ => "{}"%string)
           (info_record [("event", VStr "init"); ("level", VStr "DEBUG")]%string)).
  reflexivity.
Defined.

(** [format_twice] for the same record. *)
Lemma format_twice_witness :
  let d := [("event", VStr "init"); ("level", VStr "DEBUG")]%string in
  let stamp := fun _ : Z => "2026-01-01"%string in
  let dumps := fun _ : pydict => "{}"%string in
  let '(text, after) := format stamp dumps (info_record d) in
  msg after = MsgDict (json_record stamp (info_record d)) /\
  format stamp dumps after = (text, after).
Proof.
  apply (format_twice (fun _ => "2026-01-01"%string) (fun _ => "{}"%string)
           (info_record [("event", VStr "init"); ("level", VStr "DEBUG")]%string)
           [("event", VStr "init"); ("level", VStr "DEBUG")]%string).
  reflexivity.
Defined.

Example format_run :
  json_record (fun _ => "2026-01-01"%string)
    (info_record [("event", VStr "init"); ("level", VStr "DEBUG")]%string)
  = [("event", VStr "init"); ("level", VStr "INFO");
     ("timestamp", VStr "2026-01-01")]%string.
Proof. reflexivity. Qed.

End MoreRuns.
